(** * CoopBuddy: the response engine and the bridge server

    A shallow embedding of [server/brain.py] and of the sending side of
    [server/ws_server.py], followed by the properties of the
    specification that were checked against it.

    Conventions of the embedding.
    - A Python [str] is a Rocq [string], one [ascii] per character: the
      characters U+0000 .. U+00FF.  The character classes used by the
      code ([\w] of [re], [str.strip], [float]) are given exactly on
      that range.
    - A function that can raise returns a [result]; a method that also
      mutates its object returns the new object next to the [result],
      so the state left behind by an exception is visible.
    - A Python [float] is kept as the exact value its literal denotes
      ([PyFloat]); the rounding to binary64 and the sign of zero are
      left out, and so is the text [repr] gives a float (a method of
      [PyBuiltins]).  Timestamps are exact rationals for the same
      reason. *)

From Stdlib Require Import ZArith QArith Qround Ascii String List Lia.
From stdpp Require Import base option list strings gmap pretty.
From Equations Require Import Equations.

Set Warnings "-register-all".

(* ================================================================== *)
(** * Part I: the embedding *)
(* ================================================================== *)

(** ** Exceptions *)

Inductive exn : Type :=
| ValueError | KeyError | TypeError | AttributeError | IndexError.

Inductive result (A : Type) : Type :=
| Ok (a : A)
| Raise (e : exn).
Arguments Ok {A} a.
Arguments Raise {A} e.

Definition rbind {A B} (r : result A) (k : A -> result B) : result B :=
  match r with
  | Ok a => k a
  | Raise e => Raise e
  end.

Notation "x <- r ;; k" := (rbind r (fun x => k))
  (at level 100, r at next level, right associativity, only parsing).

Fixpoint rmap {A B} (f : A -> result B) (l : list A) : result (list B) :=
  match l with
  | [] => Ok []
  | a :: l' => b <- f a ;; bs <- rmap f l' ;; Ok (b :: bs)
  end.

(** ** Characters and strings *)

Definition code (c : ascii) : N := N_of_ascii c.

Definition in_range (lo hi : N) (c : ascii) : bool :=
  (lo <=? code c)%N && (code c <=? hi)%N.

Definition is_digit (c : ascii) : bool := in_range 48 57 c.

(** [\w] of a [str] pattern: alphanumeric or underscore.  Above U+007F
    the alphanumerics are the letters and the numeric characters of
    Latin-1. *)
Definition is_word (c : ascii) : bool :=
  is_digit c || in_range 65 90 c || in_range 97 122 c || (code c =? 95)%N
  || (code c =? 170)%N || (code c =? 178)%N || (code c =? 179)%N
  || (code c =? 181)%N || (code c =? 185)%N || (code c =? 186)%N
  || in_range 188 190 c || in_range 192 214 c || in_range 216 246 c
  || in_range 248 255 c.

(** [str.isspace] on one character, the class [str.strip()] removes. *)
Definition is_space (c : ascii) : bool :=
  in_range 9 13 c || in_range 28 32 c || (code c =? 133)%N || (code c =? 160)%N.

(** What stops a run of characters satisfying [p]: the end of the text
    or a character that fails [p]. *)
Definition stops (p : ascii -> bool) (s : string) : Prop :=
  match s with
  | EmptyString => True
  | String c _ => p c = false
  end.

(** [span p s]: the longest prefix of [s] whose characters satisfy [p],
    and what follows it. *)
Fixpoint span (p : ascii -> bool) (s : string) : string * string :=
  match s with
  | EmptyString => ("", "")
  | String c s' =>
      if p c then let '(a, b) := span p s' in (String c a, b)
      else ("", s)
  end.

Fixpoint lstrip (p : ascii -> bool) (s : string) : string :=
  match s with
  | EmptyString => ""
  | String c s' => if p c then lstrip p s' else s
  end.

Fixpoint all_chars (p : ascii -> bool) (s : string) : bool :=
  match s with
  | EmptyString => true
  | String c s' => p c && all_chars p s'
  end.

Fixpoint rstrip (p : ascii -> bool) (s : string) : string :=
  match s with
  | EmptyString => ""
  | String c s' => if all_chars p s then "" else String c (rstrip p s')
  end.

(** [s.strip()] *)
Definition strip (s : string) : string := rstrip is_space (lstrip is_space s).

(** [s.split(",")]: never empty, one more field than there are commas. *)
Fixpoint split_comma (s : string) : list string :=
  match s with
  | EmptyString => [""]
  | String c s' =>
      if (code c =? 44)%N then "" :: split_comma s'
      else match split_comma s' with
           | f :: fs => String c f :: fs
           | [] => [String c ""]
           end
  end.

(** [s[:n]] for [n >= 0] *)
Fixpoint take_chars (n : nat) (s : string) : string :=
  match n, s with
  | S k, String c s' => String c (take_chars k s')
  | _, _ => ""
  end.

(** [pre] is a prefix of [s]: what follows it. *)
Fixpoint strip_prefix (pre s : string) : option string :=
  match pre, s with
  | EmptyString, _ => Some s
  | String a pre', String b s' =>
      if Ascii.eqb a b then strip_prefix pre' s' else None
  | String _ _, EmptyString => None
  end.

(** [sep.join(l)] *)
Fixpoint join (sep : string) (l : list string) : string :=
  match l with
  | [] => ""
  | [x] => x
  | x :: l' => x +:+ sep +:+ join sep l'
  end.

(** ** Python values

    What [json.loads] produces and what the code builds: [dict]s keep
    their insertion order and have string keys. *)

Inductive PyFloat : Type :=
| FFinite (q : Q)
| FInf (negative : bool)
| FNan.

Inductive PyVal : Type :=
| VNone
| VBool (b : bool)
| VInt (n : Z)
| VFloat (f : PyFloat)
| VStr (s : string)
| VList (l : list PyVal)
| VDict (d : list (string * PyVal)).

Abbreviation dict := (list (string * PyVal)).

(** [d.get(k)] as an option, [None] when [k] is not a key of [d]. *)
Fixpoint dict_get (k : string) (d : dict) : option PyVal :=
  match d with
  | [] => None
  | (k', v) :: d' => if String.eqb k k' then Some v else dict_get k d'
  end.

(** [d[k] = v]: in place when the key is there, at the end otherwise. *)
Fixpoint dict_set (k : string) (v : PyVal) (d : dict) : dict :=
  match d with
  | [] => [(k, v)]
  | (k', v') :: d' =>
      if String.eqb k k' then (k, v) :: d' else (k', v') :: dict_set k v d'
  end.

(** [d.update(other)] *)
Definition dict_update (d other : dict) : dict :=
  fold_left (fun acc kv => dict_set (fst kv) (snd kv) acc) other d.

Definition float_truthy (f : PyFloat) : bool :=
  match f with
  | FFinite q => negb (Qeq_bool q 0)
  | _ => true
  end.

(** [bool(v)] *)
Definition truthy (v : PyVal) : bool :=
  match v with
  | VNone => false
  | VBool b => b
  | VInt n => negb (n =? 0)%Z
  | VFloat f => float_truthy f
  | VStr s => negb (String.eqb s "")
  | VList l => match l with [] => false | _ => true end
  | VDict d => match d with [] => false | _ => true end
  end.

(** The built-ins whose output is not reproduced here: [repr] (which
    [str] falls back on for floats, lists and dicts) and
    [json.dumps]. *)
Class PyBuiltins : Type := {
  py_repr : PyVal -> string;
  json_dumps : PyVal -> string
}.

(** [str(v)], which is also how an f-string renders [v] *)
Definition py_str {builtins : PyBuiltins} (v : PyVal) : string :=
  match v with
  | VNone => "None"
  | VBool true => "True"
  | VBool false => "False"
  | VInt n => pretty n
  | VStr s => s
  | _ => py_repr v
  end.

(** ** [float(s)] on a string

    White space for [float]: the C class [isspace], and the non-ASCII
    spaces, which the conversion turns into a blank first. *)
Definition is_float_space (c : ascii) : bool :=
  in_range 9 13 c || (code c =? 32)%N || (code c =? 133)%N || (code c =? 160)%N.

(** Underscores are allowed between two digits only, and dropped. *)
Fixpoint drop_underscores (prev : ascii) (s : string) : option string :=
  match s with
  | EmptyString => if Ascii.eqb prev "_" then None else Some ""
  | String c s' =>
      if Ascii.eqb c "_" then
        if is_digit prev then drop_underscores c s' else None
      else if Ascii.eqb prev "_" && negb (is_digit c) then None
      else option_map (String c) (drop_underscores c s')
  end.

Definition lower (c : ascii) : ascii :=
  if in_range 65 90 c then ascii_of_N (code c + 32) else c.

Fixpoint lower_str (s : string) : string :=
  match s with
  | EmptyString => ""
  | String c s' => String (lower c) (lower_str s')
  end.

Fixpoint digits_val (acc : Z) (s : string) : Z :=
  match s with
  | EmptyString => acc
  | String c s' => digits_val (acc * 10 + (Z.of_N (code c) - 48)) s'
  end.

Definition take_sign (s : string) : bool * string :=
  match s with
  | String "-" r => (true, r)
  | String "+" r => (false, r)
  | _ => (false, s)
  end.

(** The exponent part, which has to end the literal: [e], a sign, one
    digit or more. *)
Definition parse_exponent (s : string) : option Z :=
  match s with
  | EmptyString => Some 0%Z
  | String c r =>
      if Ascii.eqb (lower c) "e" then
        let '(neg, r1) := take_sign r in
        let '(ds, r2) := span is_digit r1 in
        if String.eqb ds "" then None
        else if String.eqb r2 "" then
          Some (if neg then (- digits_val 0 ds)%Z else digits_val 0 ds)
        else None
      else None
  end.

(** Digits, an optional point and digits, one digit at least, an
    optional exponent. *)
Definition parse_decimal (s : string) : option Q :=
  let '(ip, r1) := span is_digit s in
  let '(fp, r2) :=
    match r1 with
    | String "." r => span is_digit r
    | _ => ("", r1)
    end in
  if String.eqb (ip +:+ fp) "" then None
  else match parse_exponent r2 with
       | Some e =>
           Some (inject_Z (digits_val 0 (ip +:+ fp))
                 * Qpower 10 (e - Z.of_nat (String.length fp)))%Q
       | None => None
       end.

Definition parse_inf_nan (negative : bool) (s : string) : option PyFloat :=
  let l := lower_str s in
  if String.eqb l "inf" || String.eqb l "infinity" then Some (FInf negative)
  else if String.eqb l "nan" then Some FNan
  else None.

Definition float_inner (s : string) : option PyFloat :=
  let '(neg, body) :=
    take_sign (rstrip is_float_space (lstrip is_float_space s)) in
  match parse_decimal body with
  | Some q => Some (FFinite (if neg then - q else q)%Q)
  | None => parse_inf_nan neg body
  end.

Definition py_float (s : string) : result PyFloat :=
  match drop_underscores "000" s with
  | Some s' =>
      match float_inner s' with
      | Some f => Ok f
      | None => Raise ValueError
      end
  | None => Raise ValueError
  end.

(** ** The action pattern

    [_ACTION_PATTERN]: the literal [[ACTION:], group 1 a run of one
    word character or more, an optional part made of [:] and group 2,
    a run of characters other than the closing bracket, then the
    closing bracket. *)

Record Match : Type := { group1 : string; group2 : option string }.

Definition not_rbracket (c : ascii) : bool := negb (Ascii.eqb c "]").

(** One attempt of the pattern at the start of [s]: the groups and what
    follows the match.  Both repetitions are greedy and neither has to
    give anything back: the run of word characters stops before a
    character that is no word character, the only place where the [:]
    or the closing bracket can be; the run of group 2 stops at the
    first closing bracket or at the end of the text. *)
Definition match_at (s : string) : option (Match * string) :=
  match strip_prefix "[ACTION:" s with
  | None => None
  | Some s1 =>
      let '(name, s2) := span is_word s1 in
      if String.eqb name "" then None
      else match s2 with
           | String "]" rest => Some ({| group1 := name; group2 := None |}, rest)
           | String ":" s3 =>
               let '(param, s4) := span not_rbracket s3 in
               match s4 with
               | String "]" rest =>
                   Some ({| group1 := name; group2 := Some param |}, rest)
               | _ => None
               end
           | _ => None
           end
  end.

(** The leftmost, non-overlapping scan that [finditer] and [sub] share:
    at each position the pattern is tried; a match is consumed whole, a
    character where it fails is passed over. *)
Inductive token : Type :=
| Lit (c : ascii)
| Tag (m : Match).

Definition inspect {A} (a : A) : {b : A | a = b} := exist _ a eq_refl.

Equations? scan (s : string) : list token by wf (String.length s) lt :=
  scan s with inspect (match_at s) := {
    | exist _ (Some (m, rest)) Hm := Tag m :: scan rest;
    | exist _ None _ with s := {
        | EmptyString := [];
        | String c s' := Lit c :: scan s' } }.
Proof.
  assert (Hspan : forall p t a b, span p t = (a, b) ->
                      String.length b <= String.length t).
  { intros p t. induction t as [|x t IH]; simpl; intros a b E.
    - injection E as <- <-. simpl. lia.
    - destruct (p x).
      + destruct (span p t) as [a' b'] eqn:E'. injection E as <- <-.
        specialize (IH _ _ eq_refl). lia.
      + injection E as <- <-. simpl. lia. }
  assert (Hpre : forall pre t r, strip_prefix pre t = Some r ->
                   String.length t = String.length pre + String.length r).
  { induction pre as [|a pre IH]; intros [|b t] r E; simpl in E;
      try discriminate; try (injection E as <-; reflexivity).
    destruct (Ascii.eqb a b); [|discriminate].
    apply IH in E. simpl. lia. }
  unfold match_at in Hm.
  destruct (strip_prefix "[ACTION:" s) as [s1|] eqn:E0; [|discriminate].
  apply Hpre in E0. cbn [String.length] in E0.
  destruct (span is_word s1) as [name s2] eqn:E1.
  destruct (String.eqb name ""); [discriminate|].
  apply Hspan in E1.
  destruct s2 as [|x s3]; [discriminate|].
  cbn [String.length] in E1.
  destruct (span not_rbracket s3) as [param s4] eqn:E2.
  apply Hspan in E2.
  assert (Hrest : String.length rest <= String.length s3).
  { destruct x as [[] [] [] [] [] [] [] []]; try discriminate.
    - injection Hm as _ <-. lia.
    - destruct s4 as [|y rest']; [discriminate|].
      cbn [String.length] in E2.
      destruct y as [[] [] [] [] [] [] [] []]; try discriminate.
      injection Hm as _ <-. lia. }
  lia.
Qed.

Definition finditer (s : string) : list Match :=
  omap (fun t => match t with Tag m => Some m | Lit _ => None end) (scan s).

Fixpoint lits (l : list token) : string :=
  match l with
  | [] => ""
  | Lit c :: l' => String c (lits l')
  | Tag _ :: l' => lits l'
  end.

Definition sub_empty (s : string) : string := lits (scan s).

(** ** [_extract_actions] *)

Record Action : Type := { action : string; params : dict }.

Definition mk_action (name : string) (ps : dict) : Action :=
  {| action := name; params := ps |}.

(** One turn of the loop over the matches: [actions] after it; [param]
    is group 2, or the empty string when the group did not take part
    or is empty. *)
Definition extract_step (actions : list Action) (m : Match)
  : result (list Action) :=
  let action_type := group1 m in
  let param := default "" (group2 m) in
  if String.eqb action_type "send_chat" then
    Ok (actions ++ [mk_action "send_chat" [("message", VStr param)]])
  else if String.eqb action_type "follow_player" then
    Ok (actions ++ [mk_action "follow_player" [("name", VStr param)]])
  else if String.eqb action_type "stop_follow" then
    Ok (actions ++ [mk_action "stop_follow" []])
  else if String.eqb action_type "look_at" then
    match split_comma param with
    | [p0; p1; p2] =>
        x <- py_float p0 ;;
        y <- py_float p1 ;;
        z <- py_float p2 ;;
        Ok (actions ++ [mk_action "look_at"
                          [("x", VFloat x); ("y", VFloat y); ("z", VFloat z)]])
    | _ => Ok actions
    end
  else if String.eqb action_type "eat" then
    Ok (actions ++ [mk_action "eat" []])
  else if String.eqb action_type "attack_mob" then
    Ok (actions ++ [mk_action "attack_mob"
                      [("name", if String.eqb param "" then VNone
                                else VStr param)]])
  else if String.eqb action_type "flee" then
    Ok (actions ++ [mk_action "flee" []])
  else if String.eqb action_type "stop_attack" then
    Ok (actions ++ [mk_action "stop_attack" []])
  else Ok actions.

Fixpoint extract_loop (ms : list Match) (actions : list Action)
  : result (list Action) :=
  match ms with
  | [] => Ok actions
  | m :: ms' => actions' <- extract_step actions m ;; extract_loop ms' actions'
  end.

Definition _extract_actions (text : string) : result (string * list Action) :=
  actions <- extract_loop (finditer text) [] ;;
  let clean := strip (sub_empty text) in
  Ok (clean, actions).

(** ** Operations on values that can raise *)

(** [v[k]] for a string key *)
Definition subscript (v : PyVal) (k : string) : result PyVal :=
  match v with
  | VDict d => match dict_get k d with
               | Some x => Ok x
               | None => Raise KeyError
               end
  | _ => Raise TypeError
  end.

(** [v.get(k, dflt)]: only a [dict] has the method. *)
Definition get_or (v : PyVal) (k : string) (dflt : PyVal) : result PyVal :=
  match v with
  | VDict d => Ok (default dflt (dict_get k d))
  | _ => Raise AttributeError
  end.

Fixpoint chars_of (s : string) : list PyVal :=
  match s with
  | EmptyString => []
  | String c s' => VStr (String c "") :: chars_of s'
  end.

(** The elements of [v[:n]], as a loop over it sees them.  A [dict]
    cannot be sliced (the exception is [TypeError] up to Python 3.11). *)
Definition slice_to (n : nat) (v : PyVal) : result (list PyVal) :=
  match v with
  | VList l => Ok (take n l)
  | VStr s => Ok (chars_of (take_chars n s))
  | _ => Raise TypeError
  end.

Definition float_gt0 (f : PyFloat) : bool :=
  match f with
  | FFinite q => negb (Qle_bool q 0)
  | FInf negative => negb negative
  | FNan => false
  end.

(** [v > 0] *)
Definition gt0 (v : PyVal) : result bool :=
  match v with
  | VBool b => Ok b
  | VInt n => Ok (0 <? n)%Z
  | VFloat f => Ok (float_gt0 f)
  | _ => Raise TypeError
  end.

(** [v + 1] *)
Definition add1 (v : PyVal) : result PyVal :=
  match v with
  | VBool b => Ok (VInt (if b then 2 else 1))
  | VInt n => Ok (VInt (n + 1))
  | VFloat (FFinite q) => Ok (VFloat (FFinite (q + 1)))
  | VFloat f => Ok (VFloat f)
  | _ => Raise TypeError
  end.

(** The integer a number is equal to, which is how it is looked up
    among integer keys. *)
Definition as_int_key (v : PyVal) : option Z :=
  match v with
  | VBool b => Some (if b then 1 else 0)%Z
  | VInt n => Some n
  | VFloat (FFinite q) =>
      if Qeq_bool q (inject_Z (Qfloor q)) then Some (Qfloor q) else None
  | _ => None
  end.

(** ** Conversation history *)

Inductive Role : Type := user | assistant.

Record Turn : Type := { role : Role; content : string }.

Record ConversationHistory : Type := {
  _max : Z;
  _turns : list Turn
}.

Definition ConversationHistory_init (max_turns : Z) : ConversationHistory :=
  {| _max := max_turns; _turns := [] |}.

(** The loop of [_trim]: [pop(0)] while the list is longer than
    [max * 2]; [pop] on the empty list raises. *)
Fixpoint trim_loop (max : Z) (turns : list Turn) : result unit * list Turn :=
  if (max * 2 <? Z.of_nat (length turns))%Z then
    match turns with
    | [] => (Raise IndexError, [])
    | _ :: turns' => trim_loop max turns'
    end
  else (Ok tt, turns).

Definition _trim (h : ConversationHistory) : result unit * ConversationHistory :=
  let '(r, turns) := trim_loop (_max h) (_turns h) in
  (r, {| _max := _max h; _turns := turns |}).

Definition append_turn (h : ConversationHistory) (t : Turn) : ConversationHistory :=
  {| _max := _max h; _turns := _turns h ++ [t] |}.

Definition get_messages (h : ConversationHistory) : list Turn := _turns h.

Definition NL : string := String "010" "".

(** [_roman] *)
Definition _roman {builtins : PyBuiltins} (n : PyVal) : string :=
  match as_int_key n with
  | Some 1%Z => "I"
  | Some 2%Z => "II"
  | Some 3%Z => "III"
  | Some 4%Z => "IV"
  | Some 5%Z => "V"
  | _ => py_str n
  end.

Section GameState.
Context {builtins : PyBuiltins}.

(** The three generator expressions that are joined with a comma. *)
Definition fmt_hostile (m : PyVal) : result string :=
  name <- subscript m "name" ;;
  distance <- subscript m "distance" ;;
  Ok (py_str name +:+ "(" +:+ py_str distance +:+ "blk)").

Definition fmt_item (i : PyVal) : result string :=
  name <- subscript i "name" ;;
  count <- subscript i "count" ;;
  Ok (py_str name +:+ "x" +:+ py_str count).

Definition _fmt_effect (e : PyVal) : result string :=
  amp <- get_or e "amplifier" (VInt 0) ;;
  name <- subscript e "name" ;;
  positive <- gt0 amp ;;
  suffix <- (if positive : bool then
               n <- add1 amp ;; Ok (" " +:+ _roman n)
             else Ok "") ;;
  match name with
  | VStr s => Ok (s +:+ suffix)
  | _ => Raise TypeError
  end.

(** A bracketed list field: nothing when the value is falsy. *)
Definition list_field (label : string) (n : nat)
    (fmt : PyVal -> result string) (v : PyVal) : result (list string) :=
  if truthy v then
    elems <- slice_to n v ;;
    strs <- rmap fmt elems ;;
    Ok [label +:+ "[" +:+ join ", " strs +:+ "]"]
  else Ok [].

(** [if key in gs: parts.append(...)], the part being [label], the
  value under [key] and [suffix]. *)
Definition scalar_field (label suffix key : string) (gs : dict) : list string :=
  match dict_get key gs with
  | Some v => [label +:+ py_str v +:+ suffix]
  | None => []
  end.

Definition _format_game_state (gs : dict) : result string :=
  let parts :=
    scalar_field "HP:" "/20" "playerHealth" gs
    ++ scalar_field "Food:" "/20" "playerFood" gs
    ++ scalar_field "Biome:" "" "biome" gs
    ++ scalar_field "Time:" "" "timeOfDay" gs
    ++ scalar_field "Dim:" "" "dimension" gs
    ++ (if truthy (default VNone (dict_get "isRaining" gs))
        then ["Raining"] else []) in
  hostiles <- list_field "Hostiles:" 3 fmt_hostile
                (default (VList []) (dict_get "nearbyHostile" gs)) ;;
  inv <- list_field "Inv:" 6 fmt_item
           (default (VList []) (dict_get "inventory" gs)) ;;
  effects <- list_field "Effects:" 3 _fmt_effect
               (default (VList []) (dict_get "potionEffects" gs)) ;;
  let parts := parts ++ hostiles ++ inv ++ effects in
  match parts with
  | [] => Ok ""
  | _ => Ok ("[GAME STATE] " +:+ join " | " parts)
  end.

(** [if game_state:] holds for a [dict] that is not empty. *)
Definition user_content (text : string) (game_state : option dict)
  : result string :=
  match game_state with
  | Some ((_ :: _) as gs) =>
      block <- _format_game_state gs ;;
      Ok ("" +:+ (block +:+ NL +:+ NL) +:+ text)
  | _ => Ok ("" +:+ text)
  end.

Definition add_user (h : ConversationHistory) (text : string)
    (game_state : option dict) : result unit * ConversationHistory :=
  match user_content text game_state with
  | Raise e => (Raise e, h)
  | Ok c => _trim (append_turn h {| role := user; content := c |})
  end.

Definition add_assistant (h : ConversationHistory) (text : string)
  : result unit * ConversationHistory :=
  _trim (append_turn h {| role := assistant; content := text |}).

End GameState.

(** ** Event prompts *)

(** U+2014, the one character of the source outside U+0000 .. U+00FF,
    as its three UTF-8 bytes. *)
Definition em_dash : string := String "226" (String "128" (String "148" "")).

Section Prompt.
Context {builtins : PyBuiltins}.

(** [data.get(key, dflt)] inside an f-string *)
Definition field (data : dict) (key dflt : string) : string :=
  py_str (default (VStr dflt) (dict_get key data)).

Definition is_bot (v : option PyVal) : bool :=
  match v with
  | Some (VStr s) => String.eqb s "bot"
  | _ => false
  end.

Definition _build_event_prompt (event_type : string) (data : dict) : string :=
  if String.eqb event_type "mob_spawn" then
    "[EVENT] A " +:+ field data "name" "something" +:+ " just spawned "
    +:+ field data "distance" "?" +:+ " blocks away from us."
  else if String.eqb event_type "player_death" then
    "[EVENT] I just died. Death message: " +:+ field data "cause" "something"
  else if String.eqb event_type "health_low" then
    "[EVENT] My health just dropped to " +:+ field data "health" "?"
    +:+ " hearts."
  else if String.eqb event_type "weather_change" then
    "[EVENT] Weather changed " +:+ em_dash +:+ " it's now "
    +:+ field data "weather" "unknown" +:+ "."
  else if String.eqb event_type "player_join" then
    "[EVENT] " +:+ field data "name" "someone" +:+ " just joined the server."
  else if String.eqb event_type "health_critical" then
    "[EVENT] My health is at " +:+ field data "health" "?" +:+ " " +:+ em_dash
    +:+ " that's critical, we need to act fast."
  else if String.eqb event_type "night_fall" then
    "[EVENT] It just turned night. Mobs are going to start spawning."
  else if String.eqb event_type "dawn" then
    "[EVENT] Sun's coming up. We made it through the night."
  else if String.eqb event_type "biome_change" then
    "[EVENT] We just crossed into a " +:+ field data "to" "somewhere"
    +:+ " biome (was " +:+ field data "from" "somewhere" +:+ ")."
  else if String.eqb event_type "item_pickup" then
    "[EVENT] " +:+ (if is_bot (dict_get "collector" data) then "I" else "You")
    +:+ " just picked up " +:+ field data "item" "something" +:+ "."
  else if String.eqb event_type "creeper_nearby" then
    "[EVENT] There's a creeper only " +:+ field data "distance" "?"
    +:+ " blocks away from us."
  else if String.eqb event_type "under_attack" then
    "[EVENT] I'm being attacked by a " +:+ field data "attacker" "something"
    +:+ "! HP: " +:+ field data "health" "?" +:+ ". I auto-"
    +:+ field data "action_taken" "nothing" +:+ "ed."
  else if String.eqb event_type "mob_killed" then
    "[EVENT] Just took out a " +:+ field data "mob" "something" +:+ ". Nice."
  else
    "[EVENT] " +:+ event_type +:+ ": " +:+ json_dumps (VDict data).

End Prompt.

(** ** The brain *)

(** The values read from [config/settings.json] when the module is
    loaded. *)
Class Settings : Type := {
  HISTORY_LENGTH : Z;
  COOLDOWNS : gmap string Q;
  MAX_QUEUE_DEPTH : Z
}.

Record Brain : Type := {
  _history : ConversationHistory;
  _game_state : dict;
  _voice_active : bool;
  _last_event_time : gmap string Q;
  _proactive_lock : bool;
  _proactive_queue : list (string * dict)
}.

Definition Reply : Type := string * list Action.

(** The request to the model, [self._client.messages.create(...)]
    followed by [.content[0].text]: the text of the answer, or [None]
    when anything in there raises.  It is an argument of the methods
    that make the request, not a field of [Brain]: what the model
    answers is no function of the state of the brain. *)
Definition Client : Type := list Turn -> option string.

Definition fallback_reply : string :=
  "...bruh my brain just lagged, what were you saying?".

Definition _call_claude (client : Client) (messages : list Turn) : string :=
  match client messages with
  | Some text => text
  | None => fallback_reply
  end.

Definition with_history (b : Brain) (h : ConversationHistory) : Brain :=
  {| _history := h; _game_state := _game_state b;
     _voice_active := _voice_active b;
     _last_event_time := _last_event_time b;
     _proactive_lock := _proactive_lock b;
     _proactive_queue := _proactive_queue b |}.

Definition with_lock (b : Brain) (locked : bool) : Brain :=
  {| _history := _history b; _game_state := _game_state b;
     _voice_active := _voice_active b;
     _last_event_time := _last_event_time b;
     _proactive_lock := locked;
     _proactive_queue := _proactive_queue b |}.

Definition with_queue (b : Brain) (q : list (string * dict)) : Brain :=
  {| _history := _history b; _game_state := _game_state b;
     _voice_active := _voice_active b;
     _last_event_time := _last_event_time b;
     _proactive_lock := _proactive_lock b;
     _proactive_queue := q |}.

Definition with_last_event_time (b : Brain) (t : gmap string Q) : Brain :=
  {| _history := _history b; _game_state := _game_state b;
     _voice_active := _voice_active b;
     _last_event_time := t;
     _proactive_lock := _proactive_lock b;
     _proactive_queue := _proactive_queue b |}.

Definition update_game_state (b : Brain) (game_state : dict) : Brain :=
  {| _history := _history b;
     _game_state := dict_update (_game_state b) game_state;
     _voice_active := _voice_active b;
     _last_event_time := _last_event_time b;
     _proactive_lock := _proactive_lock b;
     _proactive_queue := _proactive_queue b |}.

Definition set_voice_active (b : Brain) (active : bool) : Brain :=
  {| _history := _history b; _game_state := _game_state b;
     _voice_active := active;
     _last_event_time := _last_event_time b;
     _proactive_lock := _proactive_lock b;
     _proactive_queue := _proactive_queue b |}.

Definition Qltb (x y : Q) : bool := negb (Qle_bool y x).

Section Brain.
Context {builtins : PyBuiltins} {settings : Settings}.

Definition Brain_init (game_state : dict) : Brain :=
  {| _history := ConversationHistory_init HISTORY_LENGTH;
     _game_state := game_state;
     _voice_active := false;
     _last_event_time := ∅;
     _proactive_lock := false;
     _proactive_queue := [] |}.

(** [asyncio.Queue(maxsize=MAX_QUEUE_DEPTH).put_nowait]: [None] for
    [QueueFull]; a queue whose [maxsize] is not positive is never
    full. *)
Definition put_nowait (q : list (string * dict)) (item : string * dict)
  : option (list (string * dict)) :=
  if (0 <? MAX_QUEUE_DEPTH)%Z && (MAX_QUEUE_DEPTH <=? Z.of_nat (length q))%Z
  then None
  else Some (q ++ [item]).

(** [COOLDOWNS.get(event_type, 30)] *)
Definition cooldown_of (event_type : string) : Q :=
  default 30%Q (COOLDOWNS !! event_type).

(** *** [think], up to the request to the model and after it

    A coroutine runs without interruption between two [await]s.
    [think_enter] is [think] up to the request, with the messages of
    the request as its result; [think_resume] is the rest, from the
    text [_call_claude] returned. *)
Definition think_enter (b : Brain) (user_input : string)
  : result (list Turn) * Brain :=
  let '(r, h) := add_user (_history b) user_input (Some (_game_state b)) in
  let b' := with_history b h in
  match r with
  | Raise e => (Raise e, b')
  | Ok _ => (Ok (get_messages h), b')
  end.

Definition think_resume (b : Brain) (response : string)
  : result Reply * Brain :=
  match _extract_actions response with
  | Raise e => (Raise e, b)
  | Ok (text, actions) =>
      let '(r, h) := add_assistant (_history b) response in
      let b' := with_history b h in
      match r with
      | Raise e => (Raise e, b')
      | Ok _ => (Ok (text, actions), b')
      end
  end.

(** A call of [think] that nothing else interleaves with. *)
Definition think (client : Client) (b : Brain) (user_input : string)
  : result Reply * Brain :=
  match think_enter b user_input with
  | (Raise e, b1) => (Raise e, b1)
  | (Ok messages, b1) => think_resume b1 (_call_claude client messages)
  end.

(** *** [handle_game_event], in the same two parts

    [now] is what [time.time()] returns.  The first part returns
    [None] when the call returns [None] to its caller, and the
    messages of the request when it goes on, holding the lock.  An
    exception inside [async with] releases the lock on its way
    out. *)
Definition handle_game_event_enter (b : Brain) (event_type : string)
    (data : dict) (now : Q) : result (option (list Turn)) * Brain :=
  if _voice_active b then (Ok None, b)
  else
    let cooldown := cooldown_of event_type in
    let last := default 0%Q (_last_event_time b !! event_type) in
    if Qltb (now - last) cooldown then (Ok None, b)
    else if _proactive_lock b then
      match put_nowait (_proactive_queue b) (event_type, data) with
      | Some q => (Ok None, with_queue b q)
      | None => (Ok None, b)
      end
    else
      let b1 := with_lock b true in
      let b2 := with_last_event_time b1
                  (<[event_type := now]> (_last_event_time b1)) in
      let prompt := _build_event_prompt event_type data in
      let '(r, h) := add_user (_history b2) prompt (Some (_game_state b2)) in
      let b3 := with_history b2 h in
      match r with
      | Raise e => (Raise e, with_lock b3 false)
      | Ok _ => (Ok (Some (get_messages h)), b3)
      end.

Definition handle_game_event_resume (b : Brain) (response : string)
  : result Reply * Brain :=
  match _extract_actions response with
  | Raise e => (Raise e, with_lock b false)
  | Ok (text, actions) =>
      let '(r, h) := add_assistant (_history b) response in
      let b' := with_lock (with_history b h) false in
      match r with
      | Raise e => (Raise e, b')
      | Ok _ => (Ok (text, actions), b')
      end
  end.

(** A call of [handle_game_event] that nothing else interleaves
    with. *)
Definition handle_game_event (client : Client) (b : Brain)
    (event_type : string) (data : dict) (now : Q)
  : result (option Reply) * Brain :=
  match handle_game_event_enter b event_type data now with
  | (Raise e, b1) => (Raise e, b1)
  | (Ok None, b1) => (Ok None, b1)
  | (Ok (Some messages), b1) =>
      match handle_game_event_resume b1 (_call_claude client messages) with
      | (Raise e, b2) => (Raise e, b2)
      | (Ok reply, b2) => (Ok (Some reply), b2)
      end
  end.

(** *** The steps of the engine

    Every uninterrupted piece of a method of [Brain], so that a
    sequence of steps is an interleaving of calls.  A step that
    resumes a call is given the text its request came back with. *)
Inductive step_label : Type :=
| UpdateGameState (game_state : dict)
| SetVoiceActive (active : bool)
| ThinkEnter (user_input : string)
| ThinkResume (response : string)
| EventEnter (event_type : string) (data : dict) (now : Q)
| EventResume (response : string).

(** What the step hands back: a reply for the caller, if any. *)
Definition run_step (l : step_label) (b : Brain)
  : result (option Reply) * Brain :=
  match l with
  | UpdateGameState gs => (Ok None, update_game_state b gs)
  | SetVoiceActive a => (Ok None, set_voice_active b a)
  | ThinkEnter user_input =>
      match think_enter b user_input with
      | (Raise e, b') => (Raise e, b')
      | (Ok _, b') => (Ok None, b')
      end
  | ThinkResume response =>
      match think_resume b response with
      | (Raise e, b') => (Raise e, b')
      | (Ok reply, b') => (Ok (Some reply), b')
      end
  | EventEnter event_type data now =>
      match handle_game_event_enter b event_type data now with
      | (Raise e, b') => (Raise e, b')
      | (Ok _, b') => (Ok None, b')
      end
  | EventResume response =>
      match handle_game_event_resume b response with
      | (Raise e, b') => (Raise e, b')
      | (Ok reply, b') => (Ok (Some reply), b')
      end
  end.

Fixpoint run_steps (ls : list step_label) (b : Brain) : Brain :=
  match ls with
  | [] => b
  | l :: ls' => run_steps ls' (snd (run_step l b))
  end.

End Brain.

(** ** The bridge server

    The connection slot is all the state the sending side has.  What a
    method hands to the connection is returned next to its result;
    [SendOutcome] is what [connection.send] does with it.  Sends are
    taken one at a time, which is what [_send_lock] enforces.  The
    methods return a [bool] and not a [result]: [_send] catches every
    exception of the send, and nothing else in them can raise. *)

Definition Connection : Type := nat.

Inductive SendOutcome : Type :=
| Sent
| ConnectionClosed
| SendFailed.

Record WSServer : Type := { _connection : option Connection }.

Definition WSServer_init : WSServer := {| _connection := None |}.

(** [_handle_connection]: the slot on entry and in [finally]. *)
Definition connected (srv : WSServer) (websocket : Connection) : WSServer :=
  {| _connection := Some websocket |}.

Definition cleaned_up (srv : WSServer) : WSServer := {| _connection := None |}.

Definition _send (srv : WSServer) (msg : PyVal) (o : SendOutcome)
  : bool * WSServer * list (Connection * PyVal) :=
  match _connection srv with
  | None => (false, srv, [])
  | Some c =>
      match o with
      | Sent => (true, srv, [(c, msg)])
      | ConnectionClosed => (false, {| _connection := None |}, [])
      | SendFailed => (false, srv, [])
      end
  end.

Definition send_action (srv : WSServer) (action : string)
    (params : option dict) (o : SendOutcome)
  : bool * WSServer * list (Connection * PyVal) :=
  match _connection srv with
  | None => (false, srv, [])
  | Some _ =>
      let msg := VDict [("type", VStr "action"); ("action", VStr action);
                        ("params", VDict (default [] params))] in
      _send srv msg o
  end.

Definition send_chat (srv : WSServer) (message : string) (o : SendOutcome)
  : bool * WSServer * list (Connection * PyVal) :=
  let truncated := take_chars 250 message in
  send_action srv "send_chat" (Some [("message", VStr truncated)]) o.

(** ** The tag grammar and the specification's reading of the extractor *)

(** The text of a tag with the given groups. *)
Definition tag_text (m : Match) : string :=
  "[ACTION:" +:+ group1 m
  +:+ match group2 m with
      | Some p => ":" +:+ p
      | None => ""
      end
  +:+ "]".

(** The grammar: the name is an identifier, the parameter any run of
    characters without a closing bracket. *)
Definition well_formed (m : Match) : Prop :=
  group1 m ≠ "" ∧ all_chars is_word (group1 m) = true
  ∧ ∀ p, group2 m = Some p → all_chars not_rbracket p = true.

(** [text] cut into its tags and the characters between them, from
    left to right: a tag wherever one starts, a character otherwise. *)
Inductive tokenizes : string → list token → Prop :=
| tokenizes_end : tokenizes "" []
| tokenizes_tag m rest toks :
    well_formed m →
    tokenizes rest toks →
    tokenizes (tag_text m +:+ rest) (Tag m :: toks)
| tokenizes_lit c s toks :
    (∀ m rest, well_formed m → String c s ≠ tag_text m +:+ rest) →
    tokenizes s toks →
    tokenizes (String c s) (Lit c :: toks).

(** No tag anywhere in [text]. *)
Definition no_tag (text : string) : Prop :=
  ∀ pre m rest, well_formed m → text ≠ pre +:+ tag_text m +:+ rest.

(** The action of a tag by the parameter rules of the specification;
    an unknown name has none. *)
Definition spec_action (m : Match) : option Action :=
  let name := group1 m in
  let param := default "" (group2 m) in
  if String.eqb name "send_chat" then
    Some (mk_action name [("message", VStr param)])
  else if String.eqb name "follow_player" then
    Some (mk_action name [("name", VStr param)])
  else if String.eqb name "stop_follow" || String.eqb name "eat"
          || String.eqb name "flee" || String.eqb name "stop_attack" then
    Some (mk_action name [])
  else if String.eqb name "look_at" then
    match split_comma param with
    | [p0; p1; p2] =>
        match py_float p0, py_float p1, py_float p2 with
        | Ok x, Ok y, Ok z =>
            Some (mk_action name
                    [("x", VFloat x); ("y", VFloat y); ("z", VFloat z)])
        | _, _, _ => None
        end
    | _ => None
    end
  else if String.eqb name "attack_mob" then
    Some (mk_action name
            [("name", if String.eqb param "" then VNone else VStr param)])
  else None.

Definition spec_actions (toks : list token) : list Action :=
  omap (fun t => match t with
                 | Tag m => spec_action m
                 | Lit _ => None
                 end) toks.

Definition is_ok {A} (r : result A) : bool :=
  match r with Ok _ => true | Raise _ => false end.

(** A [look_at] tag with three fields has three numeric fields. *)
Definition numeric_fields (m : Match) : bool :=
  if String.eqb (group1 m) "look_at" then
    match split_comma (default "" (group2 m)) with
    | [p0; p1; p2] =>
        is_ok (py_float p0) && is_ok (py_float p1) && is_ok (py_float p2)
    | _ => true
    end
  else true.

(** The pieces of text between the tags. *)
Fixpoint pieces (toks : list token) : list string :=
  match toks with
  | [] => [""]
  | Lit c :: toks' =>
      match pieces toks' with
      | p :: ps => String c p :: ps
      | [] => [String c ""]
      end
  | Tag _ :: toks' => "" :: pieces toks'
  end.

(** The clean text as the specification words it: the tags removed and
    the white space around each removed tag collapsed, to one blank
    between two pieces of text and to nothing at either end. *)
Definition spec_clean_text (text : string) : string :=
  join " " (filter (fun p => p ≠ "") (strip <$> pieces (scan text))).

(** ** Sequences of appends to a window *)

Inductive append_call : Type :=
| AddUser (text : string) (game_state : option dict)
| AddAssistant (text : string).

(** The most recent [n] of [l], in their order. *)
Definition most_recent {A} (n : nat) (l : list A) : list A :=
  drop (length l - n) l.

Section Appends.
Context {builtins : PyBuiltins}.

Definition run_call (h : ConversationHistory) (c : append_call)
  : result unit * ConversationHistory :=
  match c with
  | AddUser text gs => add_user h text gs
  | AddAssistant text => add_assistant h text
  end.

(** The window after the calls, whatever each of them returned. *)
Definition run_calls (cs : list append_call) (h : ConversationHistory)
  : ConversationHistory :=
  fold_left (fun h c => snd (run_call h c)) cs h.

(** The turn a call appends; none when the snapshot fails to
    render. *)
Definition appended (c : append_call) : option Turn :=
  match c with
  | AddUser text gs =>
      match user_content text gs with
      | Ok s => Some {| role := user; content := s |}
      | Raise _ => None
      end
  | AddAssistant text => Some {| role := assistant; content := text |}
  end.

End Appends.

(** Turns of alternating roles, [r] first. *)
Fixpoint alternating (r : Role) (texts : list string) : list append_call :=
  match texts with
  | [] => []
  | t :: texts' =>
      match r with
      | user => AddUser t None :: alternating assistant texts'
      | assistant => AddAssistant t :: alternating user texts'
      end
  end.

Fixpoint alternating_turns (r : Role) (texts : list string) : list Turn :=
  match texts with
  | [] => []
  | t :: texts' =>
      {| role := r; content := t |}
      :: alternating_turns (match r with user => assistant | assistant => user end)
           texts'
  end.

(** Two states of the brain that differ in the pending queue at most. *)
Definition same_but_queue (b1 b2 : Brain) : Prop :=
  with_queue b1 [] = with_queue b2 [].

Section Replies.
Context {builtins : PyBuiltins} {settings : Settings}.

(** What a sequence of steps hands back, step by step. *)
Fixpoint replies (ls : list step_label) (b : Brain)
  : list (result (option Reply)) :=
  match ls with
  | [] => []
  | l :: ls' => fst (run_step l b) :: replies ls' (snd (run_step l b))
  end.

End Replies.

(** Builtins and settings to run the definitions on. *)
Definition demo_builtins : PyBuiltins :=
  {| py_repr := fun _ => "?"; json_dumps := fun _ => "{}" |}.

Definition demo_settings : Settings :=
  {| HISTORY_LENGTH := 2;
     COOLDOWNS := {[ "mob_spawn" := 10%Q ]};
     MAX_QUEUE_DEPTH := 3 |}.

Definition demo_brain : Brain := Brain_init (settings := demo_settings) [].

Definition demo_client : Client := fun _ => Some "[ACTION:flee] running!".

Definition failing_client : Client := fun _ => None.

(* ================================================================== *)
(** * Part I, continued: the rest of the server *)
(* ================================================================== *)

(** ** Snapshots that render

    The entries [_format_game_state] can format without raising: a
    hostile and an inventory item are dicts with the two keys that are
    read, an effect is a dict whose name is a string and whose
    amplifier, when there is one, is a number. *)






(** None of the fields that are rendered is there to render. *)
Definition nothing_to_render (gs : dict) : bool :=
  forallb (fun k => bool_decide (dict_get k gs = None))
    ["playerHealth"; "playerFood"; "biome"; "timeOfDay"; "dimension"]
  && forallb (fun k => negb (truthy (default VNone (dict_get k gs))))
       ["isRaining"; "nearbyHostile"; "inventory"; "potionEffects"].

(** The keys of a [dict] are distinct. *)
Definition dict_wf (d : dict) : Prop := NoDup (fst <$> d).

(** ** Message envelopes ([message_schema.py])

    [now] is what [time.time()] returns. *)

Definition stamp (t : Q) : PyVal := VFloat (FFinite t).

(** [timestamp or time.time()] *)
Definition make_game_event (event_type : string) (data : dict)
    (timestamp : option Q) (now : Q) : PyVal :=
  VDict [("type", VStr "game_event"); ("event_type", VStr event_type);
         ("data", VDict data);
         ("timestamp",
          match timestamp with
          | Some t => if float_truthy (FFinite t) then stamp t else stamp now
          | None => stamp now
          end)].

Definition make_action (action : string) (params : option dict) : PyVal :=
  VDict [("type", VStr "action"); ("action", VStr action);
         ("params", VDict (default [] params))].

Definition make_ping (now : Q) : PyVal :=
  VDict [("type", VStr "ping"); ("timestamp", stamp now)].

Definition make_pong (ping_timestamp : PyVal) (now : Q) : PyVal :=
  VDict [("type", VStr "pong"); ("ping_timestamp", ping_timestamp);
         ("timestamp", stamp now)].

Definition VALID_TYPES : list string := ["game_event"; "action"; "ping"; "pong"].

(** [x in VALID_TYPES] hashes [x]: a list or a dict cannot be hashed,
    anything else that is not one of the four strings is not in the
    set. *)
Definition in_valid_types (x : PyVal) : result bool :=
  match x with
  | VList _ | VDict _ => Raise TypeError
  | VStr s => Ok (existsb (String.eqb s) VALID_TYPES)
  | _ => Ok false
  end.

Definition validate_message (msg : PyVal) : result bool :=
  match msg with
  | VDict d => in_valid_types (default VNone (dict_get "type" d))
  | _ => Ok false
  end.

(** ** The receiving side of the bridge server *)

(** [json.loads] on a text frame: [None] for [JSONDecodeError]. *)
Class PyJson : Type := { json_loads : string -> option PyVal }.

(** What a piece of the server did: its result, the server after it,
    what was handed to the connection and the messages for which a
    handler task was created. *)
Record Dispatched : Type := {
  outcome : result unit;
  server : WSServer;
  sent : list (Connection * PyVal);
  tasks : list PyVal
}.

Definition nothing_done (srv : WSServer) : Dispatched :=
  {| outcome := Ok tt; server := srv; sent := []; tasks := [] |}.

(** One frame as the loop meets it: its text, the two readings of the
    clock [_dispatch] takes for a ping (the default of [msg.get] and the
    stamp of the pong) and what the send of the pong does. *)
Record Frame : Type := {
  raw : string;
  clock1 : Q;
  clock2 : Q;
  send_outcome : SendOutcome
}.

(** [v == s] for a string [s] *)
Definition str_eq (v : PyVal) (s : string) : bool :=
  match v with
  | VStr t => String.eqb t s
  | _ => false
  end.

Section Receive.
Context {json : PyJson}.

(** [_dispatch].  A message that passes [validate_message] is a dict,
  so the last branch of the outer match is never taken. *)
Definition _dispatch (srv : WSServer) (f : Frame) : Dispatched :=
match json_loads (raw f) with
| None => nothing_done srv
| Some msg =>
    match validate_message msg with
    | Raise e => {| outcome := Raise e; server := srv; sent := []; tasks := [] |}
    | Ok false => nothing_done srv
    | Ok true =>
        match msg with
        | VDict d =>
            let msg_type := default VNone (dict_get "type" d) in
            if str_eq msg_type "ping" then
              let ts := default (stamp (clock1 f)) (dict_get "timestamp" d) in
              let '(_, srv', out) :=
                _send srv (make_pong ts (clock2 f)) (send_outcome f) in
              {| outcome := Ok tt; server := srv'; sent := out; tasks := [] |}
            else if str_eq msg_type "pong" then nothing_done srv
            else if str_eq msg_type "game_event" then
              {| outcome := Ok tt; server := srv; sent := []; tasks := [msg] |}
            else nothing_done srv
        | _ => {| outcome := Raise AttributeError; server := srv;
                  sent := []; tasks := [] |}
        end
    end
end.



End Receive.



(** ** The orchestrator ([main.py]) *)

(** [s.split()]: the words of [s], the runs of characters that are not
    white space. *)
Fixpoint split_ws (s : string) : list string :=
  match s with
  | EmptyString => []
  | String c s' =>
      if is_space c then split_ws s'
      else match s' with
           | EmptyString => [String c ""]
           | String c' _ =>
               if is_space c' then String c "" :: split_ws s'
               else match split_ws s' with
                    | w :: ws => String c w :: ws
                    | [] => [String c ""]
                    end
           end
  end.

(** What a handler asks of the voice output and of the bridge server:
    the texts given to [tts.speak] and to [send_chat], which run as
    tasks of their own, and the calls of [send_action], in their
    order. *)
Record Effects : Type := {
  spoken : list string;
  chatted : list string;
  forwarded : list (string * dict)
}.

Definition no_effects : Effects :=
  {| spoken := []; chatted := []; forwarded := [] |}.

(** The loop of [handle_response] over the actions. *)
Fixpoint forward_actions (actions : list Action) : list (string * dict) :=
  match actions with
  | [] => []
  | a :: actions' =>
      if String.eqb (action a) "send_chat" then forward_actions actions'
      else (action a, params a) :: forward_actions actions'
  end.

Definition handle_response (text : string) (actions : list Action) : Effects :=
  if String.eqb text "" then no_effects
  else
    let clean := join " " (split_ws text) in
    {| spoken := [clean]; chatted := [clean];
       forwarded := forward_actions actions |}.

Section Orchestrator.
Context {builtins : PyBuiltins} {settings : Settings}.

(** [on_transcript], with nothing else running in between. *)
Definition on_transcript (client : Client) (b : Brain) (transcript : string)
: result Effects * Brain :=
match think client b transcript with
| (Raise e, b') => (Raise e, b')
| (Ok (text, actions), b') => (Ok (handle_response text actions), b')
end.

(** [on_game_event] for a message whose [event_type] is a string and
  whose [data] is a dict, which is what [make_game_event] builds.
  The cache [game_state] of the module is the dict the brain was
  given, so the event [game_state] updates the same dict twice. *)
Definition on_game_event (client : Client) (b : Brain) (event_type : string)
  (data : dict) (now : Q) : result Effects * Brain :=
if String.eqb event_type "game_state" then
  (Ok no_effects, update_game_state (update_game_state b data) data)
else if String.eqb event_type "bot_joined"
        || String.eqb event_type "bot_disconnected" then
  if String.eqb event_type "bot_joined" then
    let player := default (VStr "") (dict_get "playerName" data) in
    if truthy player then
      (Ok {| spoken := []; chatted := [];
             forwarded := [("follow_player", [("name", player)])] |}, b)
    else (Ok no_effects, b)
  else (Ok no_effects, b)
else if String.eqb event_type "player_message" then
  let username := default (VStr "") (dict_get "username" data) in
  let message := default (VStr "") (dict_get "message" data) in
  if truthy message then
    match think client b
            (py_str username +:+ " says in chat: " +:+ py_str message) with
    | (Raise e, b') => (Raise e, b')
    | (Ok (text, actions), b') => (Ok (handle_response text actions), b')
    end
  else (Ok no_effects, b)
else
  match handle_game_event client b event_type data now with
  | (Raise e, b') => (Raise e, b')
  | (Ok None, b') => (Ok no_effects, b')
  | (Ok (Some (text, actions)), b') => (Ok (handle_response text actions), b')
  end.

(** [_run_game_event] of the bridge server around it: an exception of
  the handler is logged and goes no further. *)
Definition _run_game_event (client : Client) (b : Brain) (event_type : string)
  (data : dict) (now : Q) : Effects * Brain :=
match on_game_event client b event_type data now with
| (Raise _, b') => (no_effects, b')
| (Ok e, b') => (e, b')
end.

End Orchestrator.

(** ** Push to talk ([voice.py] with the callbacks of [main.py])

    The key handlers of [VoicePipeline], with [on_ptt_start] and
    [on_ptt_stop] of the orchestrator as their callbacks.  What the
    audio capture does is given with the event: whether [start]
    raises, and what [stop] returns, the recording or [None], or
    that it raises. *)

Record VoicePipeline : Type := {
  _ptt_held : bool;
  _loop : bool
}.

Inductive KeyEvent : Type :=
| KeyDown (started : result unit)
| KeyUp (stopped : result (option string)).

(** The state after the event and the recordings handed to [_process]. *)
Definition key_event (vp : VoicePipeline) (b : Brain) (ev : KeyEvent)
  : result unit * VoicePipeline * Brain * list string :=
  match ev with
  | KeyDown started =>
      if _ptt_held vp then (Ok tt, vp, b, [])
      else
        let vp' := {| _ptt_held := true; _loop := _loop vp |} in
        let b' := set_voice_active b true in
        (started, vp', b', [])
  | KeyUp stopped =>
      if negb (_ptt_held vp) then (Ok tt, vp, b, [])
      else
        let vp' := {| _ptt_held := false; _loop := _loop vp |} in
        match stopped with
        | Raise e => (Raise e, vp', b, [])
        | Ok wav_bytes =>
            let b' := set_voice_active b false in
            match wav_bytes with
            | Some w =>
                if negb (String.eqb w "") && _loop vp
                then (Ok tt, vp', b', [w])
                else (Ok tt, vp', b', [])
            | None => (Ok tt, vp', b', [])
            end
        end
  end.

Fixpoint key_events (vp : VoicePipeline) (b : Brain) (evs : list KeyEvent)
  : VoicePipeline * Brain :=
  match evs with
  | [] => (vp, b)
  | ev :: evs' =>
      let '(_, vp', b', _) := key_event vp b ev in key_events vp' b' evs'
  end.

Definition stop_raises (ev : KeyEvent) : bool :=
  match ev with
  | KeyUp (Raise _) => true
  | _ => false
  end.

(** ** Transcripts ([STT._transcribe_sync]) *)

Class VoiceSettings : Type := {
  MIN_TRANSCRIPT_WORDS : Z;
  STT_LOGPROB_THRESHOLD : Q
}.

Record Segment : Type := { seg_text : string; avg_logprob : Q }.

Section Transcribe.
Context {voice : VoiceSettings}.

(** The loop over the segments the model returns. *)
Fixpoint accepted_texts (segments : list Segment) : list string :=
match segments with
| [] => []
| seg :: segments' =>
    if Qltb (avg_logprob seg) STT_LOGPROB_THRESHOLD
    then accepted_texts segments'
    else strip (seg_text seg) :: accepted_texts segments'
end.

Definition transcribe (segments : list Segment) : option string :=
let transcript := strip (join " " (accepted_texts segments)) in
if (Z.of_nat (length (split_ws transcript)) <? MIN_TRANSCRIPT_WORDS)%Z
then None
else Some transcript.

End Transcribe.

Definition demo_json : PyJson :=
  {| json_loads := fun s =>
       if String.eqb s "ping" then
         Some (VDict [("type", VStr "ping"); ("timestamp", VInt 7)])
       else if String.eqb s "event" then
         Some (VDict [("type", VStr "game_event"); ("event_type", VStr "dawn")])
       else if String.eqb s "bad" then Some (VDict [("type", VList [])])
       else None |}.

Definition demo_frame (s : string) : Frame :=
  {| raw := s; clock1 := 1; clock2 := 2; send_outcome := Sent |}.

Definition demo_voice : VoiceSettings :=
  {| MIN_TRANSCRIPT_WORDS := 2; STT_LOGPROB_THRESHOLD := -1 |}.


(** A model that answers with a tag the extractor raises on, and one
    that answers with a tag and nothing else. *)
Definition demo_bad_client : Client := fun _ => Some "[ACTION:look_at:a,b,c]".

Definition demo_tag_client : Client := fun _ => Some "[ACTION:flee]".

Definition demo_pipeline : VoicePipeline :=
  {| _ptt_held := false; _loop := true |}.

(* ================================================================== *)
(** * Part II: properties *)
(* ================================================================== *)

(** ** Strings *)

Lemma append_empty_l (b : string) : "" +:+ b = b.
Proof. reflexivity. Qed.

Lemma append_cons (c : ascii) (a b : string) :
  String c a +:+ b = String c (a +:+ b).
Proof. reflexivity. Qed.

(** [stdpp] keeps [simpl] from unfolding the append of strings. *)
Ltac sapp := rewrite ?append_cons, ?append_empty_l.
Ltac sapp_in H := rewrite ?append_cons, ?append_empty_l in H.

Lemma append_assoc (a b c : string) : (a +:+ b) +:+ c = a +:+ (b +:+ c).
Proof. induction a as [|x a IH]; sapp; [reflexivity | now rewrite IH]. Qed.

Lemma append_empty_r (a : string) : a +:+ "" = a.
Proof. induction a as [|x a IH]; sapp; [reflexivity | now rewrite IH]. Qed.

Lemma span_spec p s a b :
  span p s = (a, b) → s = a +:+ b ∧ all_chars p a = true ∧ stops p b.
Proof.
  revert a b. induction s as [|c s IH]; simpl; intros a b E.
  - injection E as <- <-. repeat split.
  - destruct (p c) eqn:Hc.
    + destruct (span p s) as [a' b'] eqn:E'. injection E as <- <-.
      destruct (IH _ _ eq_refl) as (-> & Ha & Hb).
      simpl. rewrite Hc, Ha. repeat split. exact Hb.
    + injection E as <- <-. repeat split. exact Hc.
Qed.

Lemma span_app p a b :
  all_chars p a = true → stops p b → span p (a +:+ b) = (a, b).
Proof.
  induction a as [|c a IH]; sapp; simpl; intros Ha Hb.
  - destruct b as [|c b]; simpl in *; [reflexivity | now rewrite Hb].
  - apply andb_prop in Ha as [Hc Ha]. rewrite Hc, IH; auto.
Qed.

Lemma strip_prefix_spec pre s r :
  strip_prefix pre s = Some r ↔ s = pre +:+ r.
Proof.
  revert s. induction pre as [|a pre IH]; intros s; simpl.
  - split; [intros [= ->] | intros ->]; reflexivity.
  - destruct s as [|b s].
    + split; discriminate.
    + destruct (Ascii.eqb_spec a b) as [->|Hne].
      * rewrite IH. split; [intros -> | intros [= ->]]; reflexivity.
      * split; [discriminate | intros [= -> _]; contradiction].
Qed.

(** ** The pattern against the grammar *)

Lemma word_not_rbracket : is_word "]" = false.
Proof. reflexivity. Qed.

Lemma word_not_colon : is_word ":" = false.
Proof. reflexivity. Qed.

Lemma match_at_sound s m rest :
  match_at s = Some (m, rest) → well_formed m ∧ s = tag_text m +:+ rest.
Proof.
  unfold match_at. intros Hm.
  destruct (strip_prefix "[ACTION:" s) as [s1|] eqn:E0; [|discriminate].
  apply strip_prefix_spec in E0. subst s.
  destruct (span is_word s1) as [name s2] eqn:E1.
  destruct (String.eqb_spec name "") as [|Hname]; [discriminate|].
  apply span_spec in E1 as (-> & Hword & _).
  destruct s2 as [|x s3]; [discriminate|].
  destruct (span not_rbracket s3) as [param s4] eqn:E2.
  apply span_spec in E2 as (-> & Hparam & _).
  destruct (Ascii.eqb_spec x "]") as [->|Hx1].
  - injection Hm as <- <-. split.
    + repeat split; auto. discriminate.
    + unfold tag_text. simpl. rewrite ?append_assoc.  reflexivity.
  - destruct (Ascii.eqb_spec x ":") as [->|Hx2].
    + destruct s4 as [|y rest']; [discriminate|].
      destruct (Ascii.eqb_spec y "]") as [->|Hy].
      * injection Hm as <- <-. split.
        -- repeat split; auto. now intros p [= <-].
        -- unfold tag_text. simpl. rewrite ?append_assoc.   reflexivity.
      * exfalso. revert Hm Hy. clear.
        destruct y as [[] [] [] [] [] [] [] []]; simpl; congruence.
    + exfalso. revert Hm Hx1 Hx2. clear.
      destruct x as [[] [] [] [] [] [] [] []]; simpl; congruence.
Qed.

Lemma match_at_complete m rest :
  well_formed m → match_at (tag_text m +:+ rest) = Some (m, rest).
Proof.
  destruct m as [name param]. intros (Hname & Hword & Hparam).
  simpl in *. unfold match_at, tag_text. simpl group1. simpl group2.
  rewrite !append_assoc.
  replace (strip_prefix "[ACTION:" ("[ACTION:" +:+ _)) with
    (Some (name +:+ match param with Some p => ":" +:+ p | None => "" end
           +:+ "]" +:+ rest))
    by (symmetry; now apply strip_prefix_spec; rewrite ?append_assoc).
  destruct param as [p|].
  - rewrite !append_assoc. rewrite (span_app is_word name); [|assumption|reflexivity].
    destruct (String.eqb_spec name ""); [contradiction|].
    sapp. rewrite (span_app not_rbracket p); [reflexivity| |reflexivity].
    now apply Hparam.
  - sapp. rewrite (span_app is_word name); [|assumption|reflexivity].
    destruct (String.eqb_spec name ""); [contradiction|].
    reflexivity.
Qed.

Lemma scan_empty : scan "" = [].
Proof. reflexivity. Qed.

Lemma scan_tag s m rest :
  match_at s = Some (m, rest) → scan s = Tag m :: scan rest.
Proof.
  intros E. funelim (scan s); try congruence. discriminate E.
Qed.

Lemma scan_lit c s :
  match_at (String c s) = None → scan (String c s) = Lit c :: scan s.
Proof.
  intros E. funelim (scan (String c s)); try congruence.
Qed.

Lemma scan_tokenizes s : tokenizes s (scan s).
Proof.
  funelim (scan s).
  - pose proof (match_at_sound _ _ _ Hm) as (Hwf & Heq).
    rewrite Heq at 1. now constructor.
  - constructor.
  - constructor; [|assumption].
    intros m rest Hwf E.
    pose proof (match_at_complete m rest Hwf) as Hc. congruence.
Qed.

(** The pattern matches in one way at most at a position, so the order
    in which the engine tries the repetitions does not show. *)
Lemma tag_text_unique m1 m2 rest1 rest2 :
  well_formed m1 → well_formed m2 →
  tag_text m1 +:+ rest1 = tag_text m2 +:+ rest2 →
  m1 = m2 ∧ rest1 = rest2.
Proof.
  intros H1 H2 E.
  pose proof (match_at_complete m1 rest1 H1) as E1.
  pose proof (match_at_complete m2 rest2 H2) as E2.
  rewrite E in E1. rewrite E1 in E2. now injection E2 as -> ->.
Qed.

Lemma tokenizes_unique s toks : tokenizes s toks → toks = scan s.
Proof.
  induction 1 as [|m rest toks Hwf _ IH|c s toks Hno _ IH].
  - reflexivity.
  - rewrite (scan_tag _ m rest) by now apply match_at_complete.
    now rewrite IH.
  - rewrite scan_lit; [now rewrite IH|].
    destruct (match_at (String c s)) as [[m rest]|] eqn:E; [|reflexivity].
    apply match_at_sound in E as [Hwf E]. now apply Hno in E.
Qed.

Lemma no_tag_tail c s : no_tag (String c s) → no_tag s.
Proof.
  intros Hno pre m rest Hwf ->. now apply (Hno (String c pre) m rest).
Qed.

Lemma no_tag_match_at s : no_tag s → match_at s = None.
Proof.
  intros Hno. destruct (match_at s) as [[m rest]|] eqn:E; [|reflexivity].
  apply match_at_sound in E as (Hwf & E). now apply (Hno "" m rest) in Hwf.
Qed.

Lemma no_tag_scan s : no_tag s → finditer s = [] ∧ sub_empty s = s.
Proof.
  unfold finditer, sub_empty. induction s as [|c s IH]; intros Hno.
  - now rewrite scan_empty.
  - rewrite scan_lit by now apply no_tag_match_at.
    destruct (IH (no_tag_tail _ _ Hno)) as [IH1 IH2].
    split; [exact IH1 | cbn [lits]; now rewrite IH2].
Qed.

(** A tag that is found is a tag that occurs. *)
Lemma finditer_occurs s m :
  m ∈ finditer s → ∃ pre rest, well_formed m ∧ s = pre +:+ tag_text m +:+ rest.
Proof.
  unfold finditer. intros Hin.
  pose proof (scan_tokenizes s) as Htok.
  induction Htok as [|m' rest toks Hwf _ IH|c s toks _ _ IH]; simpl in Hin.
  - inversion Hin.
  - apply elem_of_cons in Hin as [->|Hin].
    + now exists "", rest.
    + destruct (IH Hin) as (pre & rest' & Hwf' & ->).
      exists (tag_text m' +:+ pre), rest'. now rewrite append_assoc.
  - destruct (IH Hin) as (pre & rest' & Hwf' & ->).
    now exists (String c pre), rest'.
Qed.

(** ** [strip] *)

Lemma all_chars_rstrip p s :
  all_chars p s = false → all_chars p (rstrip p s) = false.
Proof.
  induction s as [|c s IH]; [discriminate|].
  intros Hs. cbn [rstrip]. rewrite Hs. simpl in *.
  destruct (p c); [|reflexivity]. simpl in *. auto.
Qed.

Lemma rstrip_idempotent p s : rstrip p (rstrip p s) = rstrip p s.
Proof.
  induction s as [|c s IH]; [reflexivity|].
  cbn [rstrip]. destruct (all_chars p (String c s)) eqn:Hs; [reflexivity|].
  cbn [rstrip].
  replace (all_chars p (String c (rstrip p s))) with false.
  - now rewrite IH.
  - symmetry. simpl in *. destruct (p c); [|reflexivity].
    simpl in *. now apply all_chars_rstrip.
Qed.

Lemma lstrip_stops p s : stops p (lstrip p s).
Proof.
  induction s as [|c s IH]; simpl; [exact I|].
  destruct (p c) eqn:Hc; [assumption | exact Hc].
Qed.

Lemma strip_idempotent s : strip (strip s) = strip s.
Proof.
  unfold strip. pose proof (lstrip_stops is_space s) as Hst.
  destruct (lstrip is_space s) as [|c t]; [reflexivity|].
  simpl in Hst.
  assert (Hall : all_chars is_space (String c t) = false)
    by (simpl; now rewrite Hst).
  assert (E : lstrip is_space (rstrip is_space (String c t))
              = rstrip is_space (String c t)).
  { cbn [rstrip]. rewrite Hall. simpl. now rewrite Hst. }
  rewrite E. apply rstrip_idempotent.
Qed.

Lemma finditer_empty_no_tag s : finditer s = [] → no_tag s.
Proof.
  intros Hnil pre. revert s Hnil.
  induction pre as [|c pre IH]; intros s Hnil m rest Hwf ->.
  - unfold finditer in Hnil. sapp_in Hnil.
    rewrite (scan_tag _ m rest) in Hnil by now apply match_at_complete.
    discriminate Hnil.
  - sapp_in Hnil. unfold finditer in Hnil.
    destruct (match_at (String c (pre +:+ tag_text m +:+ rest)))
      as [[m' rest']|] eqn:E.
    + rewrite (scan_tag _ _ _ E) in Hnil. discriminate Hnil.
    + rewrite (scan_lit _ _ E) in Hnil.
      now apply (IH _ Hnil m rest Hwf).
Qed.

(** ** The extractor *)

Ltac case_name name lit :=
  destruct (String.eqb_spec name lit) as [->|?]; [simpl; try reflexivity|].

Lemma extract_step_spec actions m :
  numeric_fields m = true →
  extract_step actions m = Ok (actions ++ option_list (spec_action m)).
Proof.
  destruct m as [name param].
  unfold extract_step, spec_action, numeric_fields. simpl group1. simpl group2.
  intros Hnum.
  case_name name "send_chat". case_name name "follow_player".
  case_name name "stop_follow".
  destruct (String.eqb_spec name "look_at") as [->|?].
  { simpl in *.
    destruct (split_comma (default "" param)) as [|p0 [|p1 [|p2 [|? ?]]]];
      simpl; rewrite ?app_nil_r; try reflexivity.
    destruct (py_float p0), (py_float p1), (py_float p2);
      simpl in *; try discriminate; reflexivity. }
  case_name name "eat". case_name name "attack_mob".
  case_name name "flee". case_name name "stop_attack".
  simpl. now rewrite app_nil_r.
Qed.

Lemma extract_loop_spec ms actions :
  forallb numeric_fields ms = true →
  extract_loop ms actions = Ok (actions ++ omap spec_action ms).
Proof.
  revert actions. induction ms as [|m ms IH]; simpl; intros actions Hnum.
  - now rewrite app_nil_r.
  - apply andb_prop in Hnum as [Hm Hms].
    rewrite extract_step_spec by assumption. simpl.
    rewrite IH by assumption. rewrite <- app_assoc.
    now destruct (spec_action m).
Qed.

Lemma spec_actions_finditer s :
  omap spec_action (finditer s) = spec_actions (scan s).
Proof.
  unfold finditer, spec_actions.
  induction (scan s) as [|[c|m] toks IH]; simpl; [reflexivity|assumption|].
  destruct (spec_action m); [f_equal|]; exact IH.
Qed.

(** The one way the extractor raises: [ValueError], from [float] on a
    field of a [look_at] tag with three fields. *)
Lemma py_float_raises s e : py_float s = Raise e → e = ValueError.
Proof.
  unfold py_float. destruct (drop_underscores _ s) as [s'|]; [|congruence].
  destruct (float_inner s'); congruence.
Qed.

Lemma extract_step_raises actions m :
  numeric_fields m = false → extract_step actions m = Raise ValueError.
Proof.
  destruct m as [name param].
  unfold extract_step, numeric_fields. simpl group1. simpl group2.
  destruct (String.eqb_spec name "look_at") as [->|?]; [|discriminate].
  simpl.
  destruct (split_comma (default "" param)) as [|p0 [|p1 [|p2 [|? ?]]]];
    try discriminate.
  destruct (py_float p0) as [x|e0] eqn:E0; simpl;
    [|intros _; now rewrite (py_float_raises _ _ E0)].
  destruct (py_float p1) as [y|e1] eqn:E1; simpl;
    [|intros _; now rewrite (py_float_raises _ _ E1)].
  destruct (py_float p2) as [z|e2] eqn:E2; simpl;
    [discriminate | intros _; now rewrite (py_float_raises _ _ E2)].
Qed.

Lemma extract_loop_raises ms actions :
  forallb numeric_fields ms = false →
  extract_loop ms actions = Raise ValueError.
Proof.
  revert actions. induction ms as [|m ms IH]; simpl; intros actions Hnum;
    [discriminate|].
  destruct (numeric_fields m) eqn:Hm.
  - rewrite extract_step_spec by assumption. simpl. now apply IH.
  - now rewrite extract_step_raises.
Qed.

Lemma extract_actions_raises_iff text :
  (∃ e, _extract_actions text = Raise e)
  ↔ forallb numeric_fields (finditer text) = false.
Proof.
  unfold _extract_actions.
  destruct (forallb numeric_fields (finditer text)) eqn:Hnum.
  - rewrite extract_loop_spec by assumption. simpl.
    split; [intros [e E]|]; discriminate.
  - rewrite extract_loop_raises by assumption. simpl.
    split; [reflexivity | intros _; now exists ValueError].
Qed.

(** C1: the extractor raises on a [look_at] tag with three fields that
    are not numbers, where the claim has it strip the tag and emit no
    action: [float] raises [ValueError] on the first field and nothing
    catches it. *)
Theorem extract_actions_raises_on_look_at_fields :
  _extract_actions "[ACTION:look_at:a,b,c]" = Raise ValueError.
Proof. reflexivity. Qed.

(** C2, as the claim states it, fails: the white space on either side
    of a removed tag stays as it is, here as two blanks in a row. *)
Lemma extract_actions_keeps_inner_space :
  _extract_actions "a [ACTION:eat] b" = Ok ("a  b", [mk_action "eat" []])
  ∧ spec_clean_text "a [ACTION:eat] b" = "a b"
  ∧ ¬ ∃ actions,
        _extract_actions "a [ACTION:eat] b"
        = Ok (spec_clean_text "a [ACTION:eat] b", actions).
Proof.
  split; [reflexivity|]. split; [reflexivity|].
  intros [actions E]. vm_compute in E. discriminate E.
Qed.

(** C2, amended: when every [look_at] tag with three fields has numeric
    fields, the extractor returns the text with every tag removed and
    the white space at its two ends stripped, and the actions of the
    tags in the order of the tags; a text without a tag comes back
    stripped, with no action. *)
Theorem extract_actions_clean_and_ordered (text : string) :
  forallb numeric_fields (finditer text) = true →
  ∃ toks,
    tokenizes text toks
    ∧ _extract_actions text = Ok (strip (lits toks), spec_actions toks)
    ∧ (no_tag text → _extract_actions text = Ok (strip text, [])).
Proof.
  intros Hnum. exists (scan text).
  assert (E : _extract_actions text
              = Ok (strip (lits (scan text)), spec_actions (scan text))).
  { unfold _extract_actions. rewrite extract_loop_spec by assumption.
    simpl. now rewrite spec_actions_finditer. }
  split; [apply scan_tokenizes|]. split; [exact E|].
  intros Hno. destruct (no_tag_scan _ Hno) as [Hfind Hsub].
  rewrite E, <- spec_actions_finditer, Hfind.
  unfold sub_empty in Hsub. now rewrite Hsub.
Qed.

Lemma extract_actions_clean_and_ordered_witness :
  ∃ toks,
    tokenizes "hi [ACTION:look_at:1,2,3] there [ACTION:flee]" toks
    ∧ _extract_actions "hi [ACTION:look_at:1,2,3] there [ACTION:flee]"
      = Ok (strip (lits toks), spec_actions toks)
    ∧ (no_tag "hi [ACTION:look_at:1,2,3] there [ACTION:flee]" →
       _extract_actions "hi [ACTION:look_at:1,2,3] there [ACTION:flee]"
       = Ok (strip "hi [ACTION:look_at:1,2,3] there [ACTION:flee]", [])).
Proof.
  apply (extract_actions_clean_and_ordered
           "hi [ACTION:look_at:1,2,3] there [ACTION:flee]").
  reflexivity.
Defined.

(** C10, as the claim states it, fails: removing a tag can bring the
    text on its two sides together into a tag, which a second run then
    removes and acts on. *)
Lemma extract_actions_not_idempotent :
  ∃ clean actions,
    _extract_actions "[ACTION[ACTION:eat]:eat]" = Ok (clean, actions)
    ∧ clean = "[ACTION:eat]"
    ∧ _extract_actions clean = Ok ("", [mk_action "eat" []])
    ∧ _extract_actions clean ≠ Ok (clean, []).
Proof.
  exists "[ACTION:eat]", [mk_action "eat" []].
  repeat split; discriminate.
Qed.

(** C10, amended: when the clean text holds no tag, a second run of the
    extractor returns that same text and no action. *)
Theorem extract_actions_idempotent_without_tag (text clean : string)
    (actions : list Action) :
  _extract_actions text = Ok (clean, actions) →
  no_tag clean →
  _extract_actions clean = Ok (clean, []).
Proof.
  intros E Hno. destruct (no_tag_scan _ Hno) as [Hfind Hsub].
  unfold _extract_actions in *. rewrite Hfind, Hsub. simpl.
  destruct (extract_loop (finditer text) []); simpl in E; [|discriminate].
  injection E as <- _. now rewrite strip_idempotent.
Qed.

Lemma extract_actions_idempotent_without_tag_witness :
  _extract_actions "hi  there" = Ok ("hi  there", []).
Proof.
  apply (extract_actions_idempotent_without_tag
           " hi [ACTION:flee] there " "hi  there" [mk_action "flee" []]).
  - reflexivity.
  - apply finditer_empty_no_tag. reflexivity.
Defined.

(** ** The window *)

Section Window.
Context {builtins : PyBuiltins}.

Lemma most_recent_length {A} (n : nat) (l : list A) :
  length (most_recent n l) ≤ n.
Proof. unfold most_recent. rewrite length_drop. lia. Qed.

Lemma most_recent_all {A} (n : nat) (l : list A) :
  length l ≤ n → most_recent n l = l.
Proof.
  intros Hle. unfold most_recent.
  replace (length l - n) with 0 by lia. apply drop_0.
Qed.

Lemma most_recent_app {A} (n : nat) (l k : list A) :
  most_recent n (most_recent n l ++ k) = most_recent n (l ++ k).
Proof.
  unfold most_recent.
  rewrite !drop_app, !length_app, !length_drop, drop_drop.
  f_equal; f_equal; lia.
Qed.

Lemma trim_loop_spec (max : Z) (turns : list Turn) :
  (0 ≤ max)%Z →
  trim_loop max turns = (Ok tt, most_recent (Z.to_nat (max * 2)) turns).
Proof.
  intros Hmax. induction turns as [|t turns IH].
  - cbn [trim_loop].
    destruct (max * 2 <? Z.of_nat (length []))%Z eqn:E; [|reflexivity].
    apply Z.ltb_lt in E. simpl in E. lia.
  - cbn [trim_loop].
    destruct (max * 2 <? Z.of_nat (length (t :: turns)))%Z eqn:E.
    + rewrite IH. f_equal. unfold most_recent.
      apply Z.ltb_lt in E. simpl length in *.
      replace (S (length turns) - Z.to_nat (max * 2))
        with (S (length turns - Z.to_nat (max * 2))) by lia.
      reflexivity.
    + apply Z.ltb_ge in E.
      rewrite most_recent_all; [reflexivity | lia].
Qed.

Lemma trim_loop_negative (max : Z) (turns : list Turn) :
  (max < 0)%Z → fst (trim_loop max turns) = Raise IndexError.
Proof.
  intros Hmax. induction turns as [|t turns IH]; cbn [trim_loop].
  - destruct (max * 2 <? Z.of_nat (length []))%Z eqn:E; [reflexivity|].
    apply Z.ltb_ge in E. simpl in E. lia.
  - destruct (max * 2 <? Z.of_nat (length (t :: turns)))%Z eqn:E;
      [exact IH|].
    apply Z.ltb_ge in E. lia.
Qed.

Lemma trim_spec (h : ConversationHistory) :
  (0 ≤ _max h)%Z →
  _trim h = (Ok tt, {| _max := _max h;
                       _turns := most_recent (Z.to_nat (_max h * 2))
                                   (_turns h) |}).
Proof. intros Hmax. unfold _trim. now rewrite trim_loop_spec. Qed.

Lemma add_assistant_spec (h : ConversationHistory) (text : string) :
  (0 ≤ _max h)%Z →
  add_assistant h text
  = (Ok tt, {| _max := _max h;
               _turns := most_recent (Z.to_nat (_max h * 2))
                           (_turns h
                            ++ [{| role := assistant; content := text |}]) |}).
Proof. intros Hmax. unfold add_assistant. now rewrite trim_spec. Qed.

Lemma add_user_ok (h h' : ConversationHistory) text gs :
  add_user h text gs = (Ok tt, h') →
  (0 ≤ _max h)%Z
  ∧ ∃ c, user_content text gs = Ok c
         ∧ h' = {| _max := _max h;
                   _turns := most_recent (Z.to_nat (_max h * 2))
                               (_turns h ++ [{| role := user; content := c |}]) |}.
Proof.
  unfold add_user. destruct (user_content text gs) as [c|e]; [|discriminate].
  intros E. destruct (Z.lt_ge_cases (_max h) 0) as [Hneg|Hpos].
  - pose proof (trim_loop_negative (_max h)
                  (_turns h ++ [{| role := user; content := c |}]) Hneg) as Hr.
    unfold _trim, append_turn in E. simpl in E.
    destruct (trim_loop _ _) as [r ts]. simpl in Hr. congruence.
  - split; [assumption|]. exists c. split; [reflexivity|].
    rewrite trim_spec in E by assumption. now injection E as <-.
Qed.

(** One call keeps the window the most recent turns of all that
    were appended. *)
Lemma run_call_spec (N : Z) (h : ConversationHistory) (c : append_call) :
  (0 ≤ N)%Z → _max h = N →
  length (_turns h) ≤ Z.to_nat (N * 2) →
  _max (snd (run_call h c)) = N
  ∧ _turns (snd (run_call h c))
    = most_recent (Z.to_nat (N * 2)) (_turns h ++ option_list (appended c)).
Proof.
  intros HN Hmax Hlen. destruct c as [text gs|text]; simpl.
  - unfold add_user. destruct (user_content text gs) as [s|e]; simpl.
    + rewrite trim_spec by (simpl; lia). simpl. now rewrite Hmax.
    + rewrite app_nil_r, most_recent_all by assumption. auto.
  - rewrite add_assistant_spec by lia. simpl. now rewrite Hmax.
Qed.

Lemma run_calls_spec (N : Z) (cs : list append_call) (h : ConversationHistory) :
  (0 ≤ N)%Z → _max h = N →
  length (_turns h) ≤ Z.to_nat (N * 2) →
  _turns (run_calls cs h)
  = most_recent (Z.to_nat (N * 2)) (_turns h ++ omap appended cs).
Proof.
  intros HN. revert h. induction cs as [|c cs IH]; intros h Hmax Hlen.
  - simpl. now rewrite app_nil_r, most_recent_all.
  - cbn [run_calls fold_left].
    destruct (run_call_spec N h c HN Hmax Hlen) as [Hmax' Hturns].
    fold (run_calls cs (snd (run_call h c))).
    rewrite IH; [|assumption|rewrite Hturns; apply most_recent_length].
    rewrite Hturns, most_recent_app, <- app_assoc. f_equal. f_equal.
    simpl. now destruct (appended c).
Qed.

Lemma appended_alternating (r : Role) (texts : list string) :
  omap appended (alternating r texts) = alternating_turns r texts.
Proof.
  revert r. induction texts as [|t texts IH]; intros r; [reflexivity|].
  destruct r; simpl; now rewrite IH.
Qed.

Lemma alternating_turns_length (r : Role) (texts : list string) :
  length (alternating_turns r texts) = length texts.
Proof.
  revert r. induction texts as [|t texts IH]; intros r; simpl; auto.
Qed.

(** C3: with [max_turns = N], whatever is appended, the window holds
    no more than [2 * N] turns and they are the most recent of the
    turns appended, in their order; after [2 * N + 1] turns of
    alternating roles it is those turns without the first. *)
Theorem window_holds_most_recent (N : Z) (cs : list append_call) :
  (0 ≤ N)%Z →
  let h := run_calls cs (ConversationHistory_init N) in
  (Z.of_nat (length (_turns h)) ≤ 2 * N)%Z
  ∧ _turns h = most_recent (Z.to_nat (2 * N)) (omap appended cs)
  ∧ ∀ (r : Role) (texts : list string),
      Z.of_nat (length texts) = (2 * N + 1)%Z →
      let h' := run_calls (alternating r texts) (ConversationHistory_init N) in
      Z.of_nat (length (_turns h')) = (2 * N)%Z
      ∧ _turns h' = drop 1 (alternating_turns r texts).
Proof.
  intros HN.
  assert (Hall : ∀ cs', _turns (run_calls cs' (ConversationHistory_init N))
                        = most_recent (Z.to_nat (2 * N)) (omap appended cs')).
  { intros cs'. rewrite (run_calls_spec N) by (simpl; lia || reflexivity).
    simpl. now rewrite Z.mul_comm. }
  cbn zeta. split; [|split].
  - rewrite Hall. pose proof (most_recent_length (Z.to_nat (2 * N))
                                (omap appended cs)). lia.
  - apply Hall.
  - intros r texts Hlen.
    rewrite Hall, appended_alternating. unfold most_recent.
    rewrite alternating_turns_length.
    replace (length texts - Z.to_nat (2 * N)) with 1 by lia.
    split; [|reflexivity].
    rewrite length_drop, alternating_turns_length. lia.
Qed.

Lemma user_content_without_snapshot (text : string) :
  user_content text None = Ok text ∧ user_content text (Some []) = Ok text.
Proof. split; reflexivity. Qed.

Lemma user_content_with_block (text block : string) (gs : dict) :
  gs ≠ [] → _format_game_state gs = Ok block →
  user_content text (Some gs) = Ok (block +:+ NL +:+ NL +:+ text).
Proof.
  intros Hne E. destruct gs as [|kv gs]; [contradiction|].
  unfold user_content. cbn beta iota zeta. rewrite E. simpl. sapp.
  now rewrite !append_assoc.
Qed.

(** C7: a snapshot that is not empty and has none of the fields that
    are rendered gives no block, and the turn still gets the two line
    breaks in front of the text, where the claim has the raw text
    only. *)
Theorem add_user_separator_without_block (text : string) :
  _format_game_state [("isRaining", VBool false)] = Ok ""
  ∧ add_user (ConversationHistory_init 1) text
      (Some [("isRaining", VBool false)])
    = (Ok tt, {| _max := 1;
                 _turns := [{| role := user;
                               content := NL +:+ NL +:+ text |}] |}).
Proof. split; reflexivity. Qed.

End Window.


(** ** The brain *)

Lemma Qltb_lt (x y : Q) : Qltb x y = true ↔ (x < y)%Q.
Proof.
  unfold Qltb. rewrite negb_true_iff, <- not_true_iff_false, Qle_bool_iff.
  split; [apply Qnot_le_lt | apply Qlt_not_le].
Qed.

Section BrainProperties.
Context {builtins : PyBuiltins} {settings : Settings}.

(** A window with a negative bound raises on every append, so a
    bound under which [add_user] returned is not negative. *)
Lemma think_enter_ok b user_input messages b1 :
  think_enter b user_input = (Ok messages, b1) →
  (0 ≤ _max (_history b1))%Z
  ∧ _max (_history b1) = _max (_history b)
  ∧ messages = _turns (_history b1).
Proof.
  unfold think_enter.
  destruct (add_user _ _ _) as [[[]|e] h] eqn:E; [|discriminate].
  intros [= <- <-]. apply add_user_ok in E as (Hmax & c & _ & ->).
  simpl. auto.
Qed.

Lemma handle_game_event_enter_ok b event_type data now messages b1 :
  handle_game_event_enter b event_type data now = (Ok (Some messages), b1) →
  (0 ≤ _max (_history b1))%Z
  ∧ _max (_history b1) = _max (_history b)
  ∧ messages = _turns (_history b1).
Proof.
  unfold handle_game_event_enter.
  destruct (_voice_active b); [discriminate|].
  destruct (Qltb _ _); [discriminate|].
  destruct (_proactive_lock b).
  { destruct (put_nowait _ _); discriminate. }
  simpl. destruct (add_user _ _ _) as [[[]|e] h] eqn:E; [|discriminate].
  intros [= <- <-]. apply add_user_ok in E as (Hmax & c & _ & ->).
  simpl. auto.
Qed.

Lemma extract_fallback_reply :
  _extract_actions fallback_reply = Ok (fallback_reply, []).
Proof. reflexivity. Qed.

Lemma most_recent_last {A} (n : nat) (l : list A) (x : A) :
  1 ≤ n → last (most_recent n (l ++ [x])) = Some x.
Proof.
  intros Hn. unfold most_recent. rewrite length_app. simpl.
  rewrite drop_app_le by lia. apply last_snoc.
Qed.

(** C5: while the voice-active flag is set, [handle_game_event]
    returns [None] and leaves the whole state of the brain as it was:
    the cooldown table, the pending queue and the window with it. *)
Theorem voice_active_suppresses_event (client : Client) (b : Brain)
    (event_type : string) (data : dict) (now : Q) :
  _voice_active b = true →
  handle_game_event client b event_type data now = (Ok None, b)
  ∧ handle_game_event_enter b event_type data now = (Ok None, b).
Proof.
  intros Hv. unfold handle_game_event, handle_game_event_enter.
  now rewrite Hv.
Qed.

(** *** Cooldown *)

Lemma handle_game_event_enter_cooldown b event_type data now last :
  _last_event_time b !! event_type = Some last →
  (now - last < cooldown_of event_type)%Q →
  handle_game_event_enter b event_type data now = (Ok None, b).
Proof.
  intros Hlast Hlt. unfold handle_game_event_enter.
  destruct (_voice_active b); [reflexivity|].
  rewrite Hlast. simpl. apply Qltb_lt in Hlt. now rewrite Hlt.
Qed.

(** A call that is not suppressed stamps the time of its event. *)
Lemma handle_game_event_enter_stamps b event_type data now :
  fst (handle_game_event_enter b event_type data now) ≠ Ok None →
  _last_event_time (snd (handle_game_event_enter b event_type data now))
    !! event_type = Some now.
Proof.
  unfold handle_game_event_enter.
  destruct (_voice_active b); [contradiction|].
  destruct (Qltb _ _); [contradiction|].
  destruct (_proactive_lock b).
  { destruct (put_nowait _ _); contradiction. }
  simpl. intros _.
  destruct (add_user _ _ _) as [[[]|e] h]; simpl; apply lookup_insert_eq.
Qed.

Lemma handle_game_event_resume_table b response :
  _last_event_time (snd (handle_game_event_resume b response))
  = _last_event_time b.
Proof.
  unfold handle_game_event_resume.
  destruct (_extract_actions response) as [[text actions]|e]; [|reflexivity].
  destruct (add_assistant _ _) as [[[]|e] h]; reflexivity.
Qed.

Lemma handle_game_event_stamps client b event_type data now :
  fst (handle_game_event client b event_type data now) ≠ Ok None →
  fst (handle_game_event_enter b event_type data now) ≠ Ok None
  ∧ _last_event_time (snd (handle_game_event client b event_type data now))
      !! event_type = Some now.
Proof.
  intros Hne.
  assert (Hne' : fst (handle_game_event_enter b event_type data now) ≠ Ok None).
  { intros E. apply Hne. unfold handle_game_event.
    destruct (handle_game_event_enter _ _ _ _) as [[[m|]|e] b1];
      simpl in *; congruence. }
  split; [assumption|].
  pose proof (handle_game_event_enter_stamps _ _ _ _ Hne') as Hst.
  unfold handle_game_event.
  destruct (handle_game_event_enter _ _ _ _) as [[[m|]|e] b1];
    simpl in *; try assumption.
  pose proof (handle_game_event_resume_table b1 (_call_claude client m)) as Ht.
  destruct (handle_game_event_resume _ _) as [[reply|e] b2]; simpl in *;
    now rewrite Ht.
Qed.

(** C4: after a call for an event type that was not suppressed, at
    time [now1], a call for the same type at a time [now2] with
    [now2 - now1] under the cooldown of the type (30 for a type the
    settings do not list) returns [None] and leaves the brain as it
    was, the stamp of the type with it; and so while the first call
    is still waiting for its reply as after it. *)
Theorem cooldown_suppresses_second_event (client1 client2 : Client)
    (b : Brain) (event_type : string) (data1 data2 : dict) (now1 now2 : Q) :
  fst (handle_game_event client1 b event_type data1 now1) ≠ Ok None →
  (now2 - now1 < default 30 (COOLDOWNS !! event_type))%Q →
  let after := snd (handle_game_event client1 b event_type data1 now1) in
  let during := snd (handle_game_event_enter b event_type data1 now1) in
  (handle_game_event client2 after event_type data2 now2 = (Ok None, after)
   ∧ _last_event_time after !! event_type = Some now1)
  ∧ (handle_game_event client2 during event_type data2 now2 = (Ok None, during)
     ∧ _last_event_time during !! event_type = Some now1).
Proof.
  intros Hne Hlt.
  destruct (handle_game_event_stamps _ _ _ _ _ Hne) as [Hne' Hafter].
  pose proof (handle_game_event_enter_stamps _ _ _ _ Hne') as Hduring.
  cbn zeta. split; (split; [|assumption]); unfold handle_game_event.
  - now rewrite (handle_game_event_enter_cooldown _ _ _ _ _ Hafter Hlt).
  - now rewrite (handle_game_event_enter_cooldown _ _ _ _ _ Hduring Hlt).
Qed.

(** *** Failure of the request *)

Lemma resume_after_failure (h : ConversationHistory) :
  (0 ≤ _max h)%Z →
  ∃ h', add_assistant h fallback_reply = (Ok tt, h')
        ∧ _max h' = _max h
        ∧ get_messages h'
          = most_recent (Z.to_nat (_max h * 2))
              (_turns h ++ [{| role := assistant; content := fallback_reply |}])
        ∧ ((1 ≤ _max h)%Z →
           last (get_messages h')
           = Some {| role := assistant; content := fallback_reply |}).
Proof.
  intros Hmax. eexists. split; [now apply add_assistant_spec|].
  simpl. repeat split. intros H1. apply most_recent_last. lia.
Qed.

(** C6: when the request to the model fails, [think] and
    [handle_game_event] return the fixed apology with no action, and
    the apology is appended to the window as the assistant turn: the
    window is the most recent turns of the messages of the request
    followed by it, and it is the last turn of any window that holds
    a turn at all. *)
Theorem completion_failure_falls_back (client : Client) (b : Brain) :
  (∀ user_input messages b1,
     think_enter b user_input = (Ok messages, b1) →
     client messages = None →
     ∃ b2,
       think client b user_input = (Ok (fallback_reply, []), b2)
       ∧ get_messages (_history b2)
         = most_recent (Z.to_nat (_max (_history b) * 2))
             (messages ++ [{| role := assistant; content := fallback_reply |}])
       ∧ ((1 ≤ _max (_history b))%Z →
          last (get_messages (_history b2))
          = Some {| role := assistant; content := fallback_reply |}))
  ∧ (∀ event_type data now messages b1,
       handle_game_event_enter b event_type data now
       = (Ok (Some messages), b1) →
       client messages = None →
       ∃ b2,
         handle_game_event client b event_type data now
         = (Ok (Some (fallback_reply, [])), b2)
         ∧ get_messages (_history b2)
           = most_recent (Z.to_nat (_max (_history b) * 2))
               (messages ++ [{| role := assistant; content := fallback_reply |}])
         ∧ ((1 ≤ _max (_history b))%Z →
            last (get_messages (_history b2))
            = Some {| role := assistant; content := fallback_reply |})).
Proof.
  split.
  - intros user_input messages b1 Henter Hfail.
    destruct (think_enter_ok _ _ _ _ Henter) as (Hmax & Hsame & ->).
    destruct (resume_after_failure _ Hmax) as (h' & Hadd & _ & Hmsgs & Hlast).
    exists (with_history b1 h').
    unfold think. rewrite Henter. unfold _call_claude. rewrite Hfail.
    unfold think_resume. rewrite extract_fallback_reply, Hadd.
    rewrite <- Hsame. auto.
  - intros event_type data now messages b1 Henter Hfail.
    destruct (handle_game_event_enter_ok _ _ _ _ _ _ Henter)
      as (Hmax & Hsame & ->).
    destruct (resume_after_failure _ Hmax) as (h' & Hadd & _ & Hmsgs & Hlast).
    exists (with_lock (with_history b1 h') false).
    unfold handle_game_event. rewrite Henter.
    unfold _call_claude. rewrite Hfail.
    unfold handle_game_event_resume. rewrite extract_fallback_reply, Hadd.
    rewrite <- Hsame. auto.
Qed.

End BrainProperties.

(** ** The pending queue *)

Section QueueProperties.
Context {builtins : PyBuiltins} {settings : Settings}.

Lemma put_nowait_appends q item q' :
  put_nowait q item = Some q' → q' = q ++ [item].
Proof.
  unfold put_nowait. destruct (_ && _); [discriminate|]. now intros [= <-].
Qed.

(** No step takes anything out of the queue. *)
Lemma run_step_keeps_queue (l : step_label) (b : Brain) :
  _proactive_queue b `prefix_of` _proactive_queue (snd (run_step l b)).
Proof.
  destruct l as [gs|a|input|response|event_type data now|response]; simpl.
  - reflexivity.
  - reflexivity.
  - unfold think_enter.
    destruct (add_user _ _ _) as [[[]|e] h]; reflexivity.
  - unfold think_resume.
    destruct (_extract_actions response) as [[text actions]|e]; [|reflexivity].
    destruct (add_assistant _ _) as [[[]|e] h]; reflexivity.
  - unfold handle_game_event_enter.
    destruct (_voice_active b); [reflexivity|].
    destruct (Qltb _ _); [reflexivity|].
    destruct (_proactive_lock b).
    + destruct (put_nowait _ _) as [q|] eqn:E; [|reflexivity].
      apply put_nowait_appends in E as ->. simpl. now apply prefix_app_r.
    + simpl. destruct (add_user _ _ _) as [[[]|e] h]; reflexivity.
  - unfold handle_game_event_resume.
    destruct (_extract_actions response) as [[text actions]|e]; [|reflexivity].
    destruct (add_assistant _ _) as [[[]|e] h]; reflexivity.
Qed.

Lemma run_steps_keep_queue (ls : list step_label) (b : Brain) :
  _proactive_queue b `prefix_of` _proactive_queue (run_steps ls b).
Proof.
  revert b. induction ls as [|l ls IH]; intros b; simpl; [reflexivity|].
  etrans; [apply run_step_keeps_queue | apply IH].
Qed.

(** What a step hands back, and every part of the state it leaves but
    the queue, do not depend on what the queue holds. *)
Lemma same_but_queue_fields b1 b2 :
  same_but_queue b1 b2 ↔
  _history b1 = _history b2 ∧ _game_state b1 = _game_state b2
  ∧ _voice_active b1 = _voice_active b2
  ∧ _last_event_time b1 = _last_event_time b2
  ∧ _proactive_lock b1 = _proactive_lock b2.
Proof.
  unfold same_but_queue, with_queue. split.
  - intros [= -> -> -> -> ->]. auto.
  - intros (-> & -> & -> & -> & ->). reflexivity.
Qed.

Lemma run_step_ignores_queue (l : step_label) (b1 b2 : Brain) :
  same_but_queue b1 b2 →
  fst (run_step l b1) = fst (run_step l b2)
  ∧ same_but_queue (snd (run_step l b1)) (snd (run_step l b2)).
Proof.
  intros Hsame. apply same_but_queue_fields in Hsame
    as (Hh & Hg & Hv & Ht & Hl).
  destruct b1 as [h1 g1 v1 t1 l1 q1], b2 as [h2 g2 v2 t2 l2 q2].
  simpl in *. subst h2 g2 v2 t2 l2.
  destruct l as [gs|a|input|response|event_type data now|response]; simpl.
  - split; [reflexivity|]. now apply same_but_queue_fields.
  - split; [reflexivity|]. now apply same_but_queue_fields.
  - unfold think_enter. simpl.
    destruct (add_user _ _ _) as [[[]|e] h]; simpl;
      (split; [reflexivity | now apply same_but_queue_fields]).
  - unfold think_resume. simpl.
    destruct (_extract_actions response) as [[text actions]|e]; simpl.
    + destruct (add_assistant _ _) as [[[]|e] h]; simpl;
        (split; [reflexivity | now apply same_but_queue_fields]).
    + split; [reflexivity | now apply same_but_queue_fields].
  - unfold handle_game_event_enter. simpl.
    destruct v1; simpl; [split; [reflexivity | now apply same_but_queue_fields]|].
    destruct (Qltb _ _); simpl;
      [split; [reflexivity | now apply same_but_queue_fields]|].
    destruct l1; simpl.
    + destruct (put_nowait q1 _), (put_nowait q2 _); simpl;
        (split; [reflexivity | now apply same_but_queue_fields]).
    + destruct (add_user _ _ _) as [[[]|e] h]; simpl;
        (split; [reflexivity | now apply same_but_queue_fields]).
  - unfold handle_game_event_resume. simpl.
    destruct (_extract_actions response) as [[text actions]|e]; simpl.
    + destruct (add_assistant _ _) as [[[]|e] h]; simpl;
        (split; [reflexivity | now apply same_but_queue_fields]).
    + split; [reflexivity | now apply same_but_queue_fields].
Qed.

Lemma replies_ignore_queue (ls : list step_label) (b1 b2 : Brain) :
  same_but_queue b1 b2 → replies ls b1 = replies ls b2.
Proof.
  revert b1 b2. induction ls as [|l ls IH]; intros b1 b2 Hsame; simpl;
    [reflexivity|].
  destruct (run_step_ignores_queue l b1 b2 Hsame) as [-> Hsame'].
  f_equal. now apply IH.
Qed.

(** C8: a call of [handle_game_event] that puts its event on the
    pending queue returns [None]; in every sequence of steps of the
    engine after it the queue still starts with all it held, so the
    event is never taken out; and what the steps hand back is the
    same whatever the queue holds, so no reply comes from a queued
    event. *)
Theorem queued_event_is_never_processed (b b' : Brain)
    (event_type : string) (data : dict) (now : Q)
    (r : result (option (list Turn))) :
  handle_game_event_enter b event_type data now = (r, b') →
  _proactive_queue b' = _proactive_queue b ++ [(event_type, data)] →
  r = Ok None
  ∧ (∀ client, handle_game_event client b event_type data now = (Ok None, b'))
  ∧ (∀ ls, _proactive_queue b' `prefix_of` _proactive_queue (run_steps ls b'))
  ∧ (∀ ls q, replies ls (with_queue b' q) = replies ls b').
Proof.
  intros Henter Hq.
  assert (Hr : r = Ok None).
  { revert Henter Hq. unfold handle_game_event_enter.
    destruct (_voice_active b); [now intros [= <- <-]|].
    destruct (Qltb _ _); [now intros [= <- <-]|].
    destruct (_proactive_lock b).
    - destruct (put_nowait _ _); now intros [= <- <-].
    - simpl. destruct (add_user _ _ _) as [[[]|e] h]; intros [= <- <-];
        simpl; intros E; apply (f_equal length) in E;
        rewrite length_app in E; simpl in E; lia. }
  split; [assumption|]. split; [|split].
  - intros client. unfold handle_game_event. now rewrite Henter, Hr.
  - intros ls. apply run_steps_keep_queue.
  - intros ls q. now apply replies_ignore_queue, same_but_queue_fields.
Qed.

End QueueProperties.

(** ** The bridge server *)

(** C9: with no connection, [send_action] and [send_chat] return
    [False]; the server is left as it was and nothing is handed to a
    connection, so that a send after a connection is made hands over
    its own message and no other. *)
Theorem send_without_connection (srv : WSServer) (action message : string)
    (params : option dict) (o : SendOutcome) :
  _connection srv = None →
  send_action srv action params o = (false, srv, [])
  ∧ send_chat srv message o = (false, srv, [])
  ∧ ∀ websocket later,
      snd (send_chat
             (connected (snd (fst (send_chat srv message o))) websocket)
             later Sent)
      = [(websocket,
          VDict [("type", VStr "action"); ("action", VStr "send_chat");
                 ("params", VDict [("message", VStr (take_chars 250 later))])])].
Proof.
  intros Hnone. unfold send_chat, send_action. rewrite Hnone.
  repeat split.
Qed.

(** ** The theorems at concrete inputs *)

Section Witnesses.
#[local] Existing Instance demo_builtins.
#[local] Existing Instance demo_settings.

Lemma window_holds_most_recent_witness :
  _turns (run_calls [AddUser "a" None; AddAssistant "b"; AddUser "c" None]
            (ConversationHistory_init 1))
  = [{| role := assistant; content := "b" |};
     {| role := user; content := "c" |}].
Proof.
  pose proof (window_holds_most_recent 1
                [AddUser "a" None; AddAssistant "b"; AddUser "c" None]) as W.
  destruct W as (_ & W & _); [lia|]. exact W.
Defined.

Lemma voice_active_suppresses_event_witness :
  handle_game_event demo_client (set_voice_active demo_brain true)
    "mob_spawn" [("name", VStr "zombie")] 100
  = (Ok None, set_voice_active demo_brain true).
Proof.
  apply (voice_active_suppresses_event demo_client
           (set_voice_active demo_brain true)
           "mob_spawn" [("name", VStr "zombie")] 100).
  reflexivity.
Defined.

Lemma cooldown_suppresses_second_event_witness :
  handle_game_event demo_client
    (snd (handle_game_event demo_client demo_brain "mob_spawn" [] 100))
    "mob_spawn" [] 105
  = (Ok None,
     snd (handle_game_event demo_client demo_brain "mob_spawn" [] 100)).
Proof.
  apply (cooldown_suppresses_second_event demo_client demo_client demo_brain
           "mob_spawn" [] [] 100 105).
  - vm_compute. discriminate.
  - reflexivity.
Defined.

Lemma completion_failure_falls_back_witness :
  ∃ b2, think failing_client demo_brain "yo" = (Ok (fallback_reply, []), b2)
        ∧ last (get_messages (_history b2))
          = Some {| role := assistant; content := fallback_reply |}.
Proof.
  destruct (proj1 (completion_failure_falls_back failing_client demo_brain)
              "yo" [{| role := user; content := "yo" |}]
              (with_history demo_brain
                 {| _max := 2;
                    _turns := [{| role := user; content := "yo" |}] |})
              eq_refl eq_refl) as (b2 & E & _ & L).
  exists b2. split; [exact E|]. apply L. vm_compute. discriminate.
Defined.

Lemma queued_event_is_never_processed_witness :
  handle_game_event demo_client (with_lock demo_brain true) "dawn" [] 100
  = (Ok None, with_queue (with_lock demo_brain true) [("dawn", [])])
  ∧ [("dawn", [])]
    `prefix_of` _proactive_queue
                  (run_steps [EventResume "ok"; EventEnter "dawn" [] 200]
                     (with_queue (with_lock demo_brain true) [("dawn", [])])).
Proof.
  assert (E0 : handle_game_event_enter (with_lock demo_brain true) "dawn" [] 100
               = (Ok None, with_queue (with_lock demo_brain true) [("dawn", [])])).
  { vm_compute. reflexivity. }
  destruct (queued_event_is_never_processed
              (with_lock demo_brain true)
              (with_queue (with_lock demo_brain true) [("dawn", [])])
              "dawn" [] 100 (Ok None) E0 eq_refl) as (_ & E & P & _).
  split; [apply E | apply (P [EventResume "ok"; EventEnter "dawn" [] 200])].
Defined.

Lemma send_without_connection_witness :
  send_chat WSServer_init "hi" Sent = (false, WSServer_init, []).
Proof.
  apply (send_without_connection WSServer_init "send_chat" "hi" None Sent).
  reflexivity.
Defined.

End Witnesses.

(* ================================================================== *)
(** * Part II, continued: the rest of the server *)
(* ================================================================== *)

(** ** Snapshots *)

Section SnapshotProperties.
Context {builtins : PyBuiltins}.










Lemma list_field_falsy label n fmt v :
  truthy v = false → list_field label n fmt v = Ok [].
Proof. intros Hv. unfold list_field. now rewrite Hv. Qed.

Lemma list_field_truthy label n fmt v parts :
  truthy v = true → list_field label n fmt v = Ok parts → parts ≠ [].
Proof.
  intros Hv. unfold list_field. rewrite Hv.
  destruct (slice_to n v) as [elems|e]; simpl; [|discriminate].
  destruct (rmap fmt elems) as [strs|e]; simpl; [|discriminate].
  now intros [= <-].
Qed.

Lemma scalar_field_empty label suffix key gs :
  scalar_field label suffix key gs = [] ↔ dict_get key gs = None.
Proof.
  unfold scalar_field. destruct (dict_get key gs); split; congruence.
Qed.

(** X2: the block is empty exactly when there is nothing to render:
    none of the five scalar fields is present, [isRaining] is absent
    or falsy and so is each of the three list fields; a block that is
    not empty starts with the [GAME STATE] marker. *)
Theorem format_game_state_empty_iff (gs : dict) :
  (_format_game_state gs = Ok "" ↔ nothing_to_render gs = true)
  ∧ ∀ block, _format_game_state gs = Ok block →
             block = "" ∨ ∃ rest, block = "[GAME STATE] " +:+ rest.
Proof.
  unfold _format_game_state, nothing_to_render.
  set (hv := default (VList []) (dict_get "nearbyHostile" gs)).
  set (iv := default (VList []) (dict_get "inventory" gs)).
  set (ev := default (VList []) (dict_get "potionEffects" gs)).
  assert (Hdef : ∀ k, truthy (default VNone (dict_get k gs))
                      = truthy (default (VList []) (dict_get k gs))).
  { intros k. now destruct (dict_get k gs). }
  cbn [forallb]. rewrite !andb_true_r, !andb_true_iff, !bool_decide_eq_true,
    !negb_true_iff, !(Hdef "nearbyHostile"), !(Hdef "inventory"),
    !(Hdef "potionEffects").
  fold hv iv ev. split.
  - split.
    + intros E.
      destruct (list_field "Hostiles:" 3 fmt_hostile hv) as [p1|] eqn:E1;
        [|discriminate].
      destruct (list_field "Inv:" 6 fmt_item iv) as [p2|] eqn:E2;
        [|discriminate].
      destruct (list_field "Effects:" 3 _fmt_effect ev) as [p3|] eqn:E3;
        [|discriminate].
      simpl in E.
      match type of E with
      | match ?parts with [] => _ | _ :: _ => _ end = _ =>
          destruct parts eqn:Hparts; [|discriminate E]
      end.
      repeat match goal with
             | H : _ ++ _ = [] |- _ => apply app_eq_nil in H as [? ?]
             end.
      repeat match goal with
             | H : scalar_field _ _ _ _ = [] |- _ =>
                 apply scalar_field_empty in H
             end.
      subst p1 p2 p3.
      repeat split; try assumption.
      * now destruct (truthy (default VNone (dict_get "isRaining" gs))).
      * destruct (truthy hv) eqn:Hv; [|reflexivity].
        now apply (list_field_truthy _ _ _ _ _ Hv) in E1.
      * destruct (truthy iv) eqn:Hv; [|reflexivity].
        now apply (list_field_truthy _ _ _ _ _ Hv) in E2.
      * destruct (truthy ev) eqn:Hv; [|reflexivity].
        now apply (list_field_truthy _ _ _ _ _ Hv) in E3.
    + intros ((H1 & H2 & H3 & H4 & H5) & Hr & Hh & Hi & He).
      rewrite !list_field_falsy by assumption. simpl.
      unfold scalar_field. now rewrite H1, H2, H3, H4, H5, Hr.
  - intros block.
    destruct (list_field "Hostiles:" 3 fmt_hostile hv) as [p1|]; [|discriminate].
    destruct (list_field "Inv:" 6 fmt_item iv) as [p2|]; [|discriminate].
    destruct (list_field "Effects:" 3 _fmt_effect ev) as [p3|]; [|discriminate].
    simpl. destruct (_ ++ _); intros [= <-]; [now left|right]. eauto.
Qed.

End SnapshotProperties.

(** ** Dictionaries *)

Lemma dict_get_set_eq k v d : dict_get k (dict_set k v d) = Some v.
Proof.
  induction d as [|[k' v'] d IH]; simpl.
  - now rewrite String.eqb_refl.
  - destruct (String.eqb k k') eqn:E; simpl.
    + now rewrite String.eqb_refl.
    + now rewrite E.
Qed.

Lemma dict_get_set_ne k k' v d :
  k' ≠ k → dict_get k' (dict_set k v d) = dict_get k' d.
Proof.
  intros Hne. induction d as [|[k0 v0] d IH]; simpl.
  - now apply String.eqb_neq in Hne as ->.
  - destruct (String.eqb k k0) eqn:E; simpl.
    + apply String.eqb_eq in E as <-.
      now apply String.eqb_neq in Hne as ->.
    + now rewrite IH.
Qed.

Lemma dict_set_same k v d : dict_get k d = Some v → dict_set k v d = d.
Proof.
  induction d as [|[k' v'] d IH]; simpl; [discriminate|].
  destruct (String.eqb k k') eqn:E.
  - apply String.eqb_eq in E as <-. now intros [= ->].
  - intros H. now rewrite IH.
Qed.

Lemma dict_set_keys k v d x :
  x ∈ fst <$> dict_set k v d ↔ x = k ∨ x ∈ fst <$> d.
Proof.
  induction d as [|[k' v'] d IH]; simpl.
  - rewrite list_elem_of_singleton. split; [auto|].
    intros [?|H]; [assumption|]. now apply elem_of_nil in H.
  - destruct (String.eqb_spec k k') as [<-|Hne]; simpl;
      rewrite !elem_of_cons; [tauto|]. rewrite IH. tauto.
Qed.

Lemma dict_set_wf k v d : dict_wf d → dict_wf (dict_set k v d).
Proof.
  unfold dict_wf. induction d as [|[k' v'] d IH]; simpl.
  - intros _. apply NoDup_singleton.
  - intros [Hk' Hd]%NoDup_cons.
    destruct (String.eqb_spec k k') as [<-|Hne]; simpl; apply NoDup_cons.
    + now split.
    + split; [|now apply IH].
      rewrite dict_set_keys. intros [?|?]; [congruence|contradiction].
Qed.

Lemma dict_update_cons d k v other :
  dict_update d ((k, v) :: other) = dict_update (dict_set k v d) other.
Proof. reflexivity. Qed.

Lemma dict_get_absent k (d : dict) : k ∉ fst <$> d → dict_get k d = None.
Proof.
  induction d as [|[k' v'] d IH]; simpl; [reflexivity|].
  intros Hk. destruct (String.eqb_spec k k') as [->|Hne].
  - exfalso. apply Hk, list_elem_of_here.
  - apply IH. intros Hin. apply Hk. now apply list_elem_of_further.
Qed.

Lemma dict_update_lookup (other : dict) : ∀ d k,
  dict_wf other →
  dict_get k (dict_update d other)
  = match dict_get k other with
    | Some v => Some v
    | None => dict_get k d
    end.
Proof.
  induction other as [|[k' v'] other IH]; intros d k Hwf; [reflexivity|].
  rewrite dict_update_cons. unfold dict_wf in Hwf. simpl in Hwf.
  apply NoDup_cons in Hwf as [Hk' Hwf]. rewrite (IH _ _ Hwf). simpl.
  destruct (String.eqb_spec k k') as [->|Hne].
  - rewrite (dict_get_absent _ _ Hk'). apply dict_get_set_eq.
  - now rewrite (dict_get_set_ne _ _ _ _ Hne).
Qed.

Lemma dict_update_wf (other : dict) : ∀ d,
  dict_wf d → dict_wf (dict_update d other).
Proof.
  induction other as [|[k v] other IH]; intros d Hd; [exact Hd|].
  rewrite dict_update_cons. apply IH. now apply dict_set_wf.
Qed.

Lemma dict_update_fixed (other : dict) : ∀ d,
  (∀ k v, (k, v) ∈ other → dict_get k d = Some v) →
  dict_update d other = d.
Proof.
  induction other as [|[k v] other IH]; intros d Hd; [reflexivity|].
  rewrite dict_update_cons.
  rewrite (dict_set_same k v d) by (apply Hd, list_elem_of_here).
  apply IH. intros k0 v0 Hin. apply Hd. now apply list_elem_of_further.
Qed.

Lemma dict_get_elem k v (d : dict) :
  dict_wf d → (k, v) ∈ d → dict_get k d = Some v.
Proof.
  unfold dict_wf. induction d as [|[k' v'] d IH]; simpl.
  - intros _ Hin. now apply elem_of_nil in Hin.
  - intros [Hk' Hwf]%NoDup_cons [[= -> ->]|Hin]%elem_of_cons.
    + now rewrite String.eqb_refl.
    + destruct (String.eqb_spec k k') as [->|Hne]; [|now apply IH].
      exfalso. apply Hk'. apply list_elem_of_fmap. now exists (k', v).
Qed.

(** X3: [update_game_state] merges the new snapshot into the stored
    one: a key of the new snapshot reads its new value, every other key
    reads what it read before, no key is lost, and the stored keys stay
    distinct. *)
Theorem update_game_state_merges (b : Brain) (game_state : dict) :
  dict_wf game_state →
  (∀ k, dict_get k (_game_state (update_game_state b game_state))
        = match dict_get k game_state with
          | Some v => Some v
          | None => dict_get k (_game_state b)
          end)
  ∧ (dict_wf (_game_state b) →
     dict_wf (_game_state (update_game_state b game_state))).
Proof.
  intros Hwf. split.
  - intros k. now apply dict_update_lookup.
  - apply dict_update_wf.
Qed.

Lemma update_game_state_twice (b : Brain) (game_state : dict) :
  dict_wf game_state →
  update_game_state (update_game_state b game_state) game_state
  = update_game_state b game_state.
Proof.
  intros Hwf. unfold update_game_state. simpl. f_equal.
  apply dict_update_fixed. intros k v Hin.
  rewrite (dict_update_lookup _ _ _ Hwf).
  now rewrite (dict_get_elem _ _ _ Hwf Hin).
Qed.

Section SnapshotWindow.
Context {builtins : PyBuiltins}.

Lemma list_field_take label n fmt l :
list_field label (S n) fmt (VList l)
= list_field label (S n) fmt (VList (take (S n) l)).
Proof.
unfold list_field. simpl slice_to. rewrite take_take, Nat.min_id.
now destruct l.
Qed.

(** X4: of the list fields of a snapshot only the first entries are
  read: three of [nearbyHostile], six of [inventory] and three of
  [potionEffects].  Whatever stands after them, malformed or not,
  changes neither the block nor whether the call raises. *)
Theorem format_game_state_reads_first_entries (gs : dict) (l : list PyVal) :
_format_game_state (dict_set "nearbyHostile" (VList l) gs)
= _format_game_state (dict_set "nearbyHostile" (VList (take 3 l)) gs)
∧ _format_game_state (dict_set "inventory" (VList l) gs)
  = _format_game_state (dict_set "inventory" (VList (take 6 l)) gs)
∧ _format_game_state (dict_set "potionEffects" (VList l) gs)
  = _format_game_state (dict_set "potionEffects" (VList (take 3 l)) gs).
Proof.
unfold _format_game_state, scalar_field.
repeat split;
  rewrite ?dict_get_set_eq, ?dict_get_set_ne by discriminate;
  cbn [default from_option id]; now rewrite list_field_take.
Qed.

(** X5: every prompt built for a game event, of a known type or not,
  starts with the [EVENT] marker. *)
Theorem build_event_prompt_marked (event_type : string) (data : dict) :
∃ rest, _build_event_prompt event_type data = "[EVENT] " +:+ rest.
Proof.
unfold _build_event_prompt.
repeat match goal with
       | |- context [if String.eqb ?a ?b then _ else _] =>
           destruct (String.eqb a b)
       end;
  eexists; apply strip_prefix_spec; reflexivity.
Qed.

End SnapshotWindow.

(** ** The brain *)

Section BrainProperties.
Context {builtins : PyBuiltins} {settings : Settings}.

Lemma run_step_queue_bound (l : step_label) (b : Brain) :
(0 < MAX_QUEUE_DEPTH)%Z →
(Z.of_nat (length (_proactive_queue b)) ≤ MAX_QUEUE_DEPTH)%Z →
(Z.of_nat (length (_proactive_queue (snd (run_step l b))))
 ≤ MAX_QUEUE_DEPTH)%Z.
Proof.
intros Hpos Hb. destruct l; simpl.
- exact Hb.
- exact Hb.
- unfold think_enter.
  destruct (add_user _ _ _) as [[[]|e] h]; exact Hb.
- unfold think_resume.
  destruct (_extract_actions response) as [[text actions]|e]; [|exact Hb].
  destruct (add_assistant _ _) as [[[]|e] h]; exact Hb.
- unfold handle_game_event_enter.
  destruct (_voice_active b); [exact Hb|].
  destruct (Qltb _ _); [exact Hb|].
  destruct (_proactive_lock b).
  + unfold put_nowait.
    destruct (0 <? MAX_QUEUE_DEPTH)%Z eqn:E0; simpl;
      [|apply Z.ltb_ge in E0; lia].
    destruct (MAX_QUEUE_DEPTH <=? _)%Z eqn:E1; simpl; [exact Hb|].
    apply Z.leb_gt in E1. rewrite length_app. simpl. lia.
  + destruct (add_user _ _ _) as [[[]|e] h]; exact Hb.
- unfold handle_game_event_resume.
  destruct (_extract_actions response) as [[text actions]|e]; [|exact Hb].
  destruct (add_assistant _ _) as [[[]|e] h]; exact Hb.
Qed.

(** X6: with a positive [MAX_QUEUE_DEPTH], the queue of pending events
  never holds more than that many entries, over every interleaving of
  the uninterrupted pieces of the methods of the brain. *)
Theorem queue_stays_bounded (ls : list step_label) (b : Brain) :
(0 < MAX_QUEUE_DEPTH)%Z →
(Z.of_nat (length (_proactive_queue b)) ≤ MAX_QUEUE_DEPTH)%Z →
(Z.of_nat (length (_proactive_queue (run_steps ls b)))
 ≤ MAX_QUEUE_DEPTH)%Z.
Proof.
intros Hpos. revert b.
induction ls as [|l ls IH]; intros b Hb; simpl; [exact Hb|].
apply IH. now apply run_step_queue_bound.
Qed.

(** X7: a call of [handle_game_event] that runs to its end leaves the
  lock as it found it: taken by somebody else it stays taken, free it
  is free again, whether the call returned a reply, returned [None]
  or raised. *)
Theorem handle_game_event_restores_lock (client : Client) (b : Brain)
  (event_type : string) (data : dict) (now : Q) :
_proactive_lock (snd (handle_game_event client b event_type data now))
= _proactive_lock b.
Proof.
unfold handle_game_event, handle_game_event_enter.
destruct (_voice_active b); [reflexivity|].
destruct (Qltb _ _); [reflexivity|].
destruct (_proactive_lock b) eqn:Hlock.
- destruct (put_nowait _ _); simpl; exact Hlock.
- destruct (add_user _ _ _) as [[[]|e] h]; [|reflexivity].
  unfold handle_game_event_resume.
  destruct (_extract_actions _) as [[text actions]|e]; [|reflexivity].
  destruct (add_assistant _ _) as [[[]|e] h']; reflexivity.
Qed.


(** X9: when the extractor raises on the answer, [think] raises with
  it after the user turn was appended: the window ends with a user
  turn that has no assistant turn. *)
Theorem think_raise_keeps_user_turn (client : Client) (b b1 : Brain)
  (user_input : string) (messages : list Turn) (e : exn) :
think_enter b user_input = (Ok messages, b1) →
_extract_actions (_call_claude client messages) = Raise e →
think client b user_input = (Raise e, b1)
∧ ∃ c, _turns (_history b1)
       = most_recent (Z.to_nat (_max (_history b) * 2))
           (_turns (_history b) ++ [{| role := user; content := c |}]).
Proof.
intros Henter Hex. split.
- unfold think. rewrite Henter. unfold think_resume. now rewrite Hex.
- unfold think_enter in Henter.
  destruct (add_user _ _ _) as [[[]|e'] h] eqn:Hadd; [|discriminate].
  apply add_user_ok in Hadd as (Hmax & c & Hc & ->).
  injection Henter as <- <-. now exists c.
Qed.

(** X10: when the extractor raises on the answer to an event, the call
  raises, the lock is free again, the stamp of the event type has
  been set, so that the cooldown runs though nothing was said. *)
Theorem event_raise_consumes_cooldown (client : Client) (b b1 : Brain)
  (event_type : string) (data : dict) (now : Q) (messages : list Turn)
  (e : exn) :
handle_game_event_enter b event_type data now = (Ok (Some messages), b1) →
_extract_actions (_call_claude client messages) = Raise e →
handle_game_event client b event_type data now
= (Raise e, with_lock b1 false)
∧ _last_event_time (with_lock b1 false) !! event_type = Some now
∧ ∀ now', (now' - now < cooldown_of event_type)%Q →
          handle_game_event client (with_lock b1 false) event_type data now'
          = (Ok None, with_lock b1 false).
Proof.
intros Henter Hex.
assert (Hstamp : _last_event_time (with_lock b1 false) !! event_type
                 = Some now).
{ pose proof (handle_game_event_enter_stamps b event_type data now) as H.
  rewrite Henter in H. simpl in H. apply H. discriminate. }
split; [|split; [exact Hstamp|]].
- unfold handle_game_event. rewrite Henter.
  unfold handle_game_event_resume. now rewrite Hex.
- intros now' Hnow'. unfold handle_game_event.
  now rewrite (handle_game_event_enter_cooldown _ _ _ _ _ Hstamp Hnow').
Qed.


Lemma run_step_other_stamp (l : step_label) (b : Brain) (k : string) :
(∀ data now, l ≠ EventEnter k data now) →
_last_event_time (snd (run_step l b)) !! k = _last_event_time b !! k.
Proof.
intros Hl. destruct l; simpl.
- reflexivity.
- reflexivity.
- unfold think_enter. now destruct (add_user _ _ _) as [[[]|e] h].
- unfold think_resume.
  destruct (_extract_actions response) as [[text actions]|e]; [|reflexivity].
  now destruct (add_assistant _ _) as [[[]|e] h].
- assert (Hne : event_type ≠ k) by (intros ->; now apply (Hl data now)).
  unfold handle_game_event_enter.
  destruct (_voice_active b); [reflexivity|].
  destruct (Qltb _ _); [reflexivity|].
  destruct (_proactive_lock b).
  + now destruct (put_nowait _ _).
  + destruct (add_user _ _ _) as [[[]|e] h]; simpl;
      now rewrite lookup_insert_ne.
- unfold handle_game_event_resume.
  destruct (_extract_actions response) as [[text actions]|e]; [|reflexivity].
  now destruct (add_assistant _ _) as [[[]|e] h].
Qed.

(** X12: the cooldowns of the event types are independent: over every
  interleaving, the stamp of a type is changed by no step other than
  an event of that very type. *)
Theorem other_event_types_keep_stamp (ls : list step_label) (b : Brain)
  (k : string) :
Forall (λ l, ∀ data now, l ≠ EventEnter k data now) ls →
_last_event_time (run_steps ls b) !! k = _last_event_time b !! k.
Proof.
intros Hls. revert b. induction Hls as [|l ls Hl _ IH]; intros b; simpl.
- reflexivity.
- rewrite IH. now apply run_step_other_stamp.
Qed.

End BrainProperties.

(** ** Message envelopes *)

(** X13: every envelope the constructors build passes the validator. *)
Theorem envelopes_validate (event_type action : string) (data : dict)
    (params : option dict) (timestamp : option Q) (ping_timestamp : PyVal)
    (now : Q) :
  validate_message (make_game_event event_type data timestamp now) = Ok true
  ∧ validate_message (make_action action params) = Ok true
  ∧ validate_message (make_ping now) = Ok true
  ∧ validate_message (make_pong ping_timestamp now) = Ok true.
Proof. repeat split. Qed.

Lemma in_valid_types_true (x : PyVal) :
  in_valid_types x = Ok true ↔ ∃ s, x = VStr s ∧ s ∈ VALID_TYPES.
Proof.
  split.
  - destruct x as [| | | |s| |]; try discriminate.
    unfold in_valid_types. intros [= H].
    change (existsb (String.eqb s) VALID_TYPES = true) in H.
    exists s. split; [reflexivity|].
    apply existsb_exists in H as (t & Hin & Heq).
    apply String.eqb_eq in Heq as ->. now apply list_elem_of_In.
  - intros (s & -> & Hin). unfold in_valid_types. f_equal.
    apply existsb_exists.
    exists s. split; [now apply list_elem_of_In|apply String.eqb_refl].
Qed.

(** X14: the validator accepts exactly the dicts whose [type] is one of
    the four known strings; it raises, with [TypeError], exactly on the
    dicts whose [type] is a list or a dict, which cannot be looked up
    in a set; everything else, a dict without [type] included, it
    rejects. *)
Theorem validate_message_spec (msg : PyVal) :
  (validate_message msg = Ok true
   ↔ ∃ d s, msg = VDict d ∧ dict_get "type" d = Some (VStr s)
            ∧ s ∈ VALID_TYPES)
  ∧ ∀ e, validate_message msg = Raise e
         ↔ e = TypeError
           ∧ ∃ d, msg = VDict d
                  ∧ ((∃ l, dict_get "type" d = Some (VList l))
                     ∨ ∃ d', dict_get "type" d = Some (VDict d')).
Proof.
  split.
  - split.
    + destruct msg as [| | | | | |d]; try discriminate. simpl.
      intros (s & Hs & Hin)%in_valid_types_true. exists d, s.
      destruct (dict_get "type" d) as [v|]; simpl in Hs; [|discriminate].
      now subst v.
    + intros (d & s & -> & Hty & Hin). unfold validate_message.
      rewrite Hty. apply in_valid_types_true. eauto.
  - intros e. split.
    + destruct msg as [| | | | | |d]; try discriminate. simpl.
      destruct (dict_get "type" d) as [[| | | | |l|d']|] eqn:Hty; simpl;
        try discriminate; intros [= <-]; (split; [reflexivity|]);
        exists d; eauto.
    + intros (-> & d & -> & [[l Hty]|[d' Hty]]); simpl; now rewrite Hty.
Qed.

(** ** The bridge server *)

Lemma take_chars_length (n : nat) (s : string) :
  String.length (take_chars n s) = Nat.min n (String.length s).
Proof.
  revert s. induction n as [|n IH]; intros [|c s]; simpl; auto.
Qed.

Lemma take_chars_all (n : nat) (s : string) :
  String.length s ≤ n → take_chars n s = s.
Proof.
  revert s. induction n as [|n IH]; intros [|c s]; simpl; try reflexivity.
  - lia.
  - intros H. f_equal. apply IH. lia.
Qed.

Lemma take_chars_prefix (n : nat) (s : string) :
  ∃ rest, s = take_chars n s +:+ rest.
Proof.
  revert s. induction n as [|n IH]; intros [|c s]; simpl.
  - now exists "".
  - now exists (String c s).
  - now exists "".
  - destruct (IH s) as [rest Hrest]. exists rest. sapp. now f_equal.
Qed.

(** X15: [send_chat] puts on the wire the [send_chat] action whose
    message is the first 250 characters of the text: a prefix of the
    text, never longer than 250, and the text itself when that is not
    longer. *)
Theorem send_chat_truncates (srv : WSServer) (c : Connection)
    (message : string) :
  _connection srv = Some c →
  let truncated := take_chars 250 message in
  send_chat srv message Sent
  = (true, srv,
     [(c, make_action "send_chat" (Some [("message", VStr truncated)]))])
  ∧ String.length truncated ≤ 250
  ∧ (∃ rest, message = truncated +:+ rest)
  ∧ (String.length message ≤ 250 → truncated = message).
Proof.
  intros Hc truncated. repeat split.
  - unfold send_chat, send_action, _send. now rewrite Hc.
  - unfold truncated. rewrite take_chars_length. lia.
  - apply take_chars_prefix.
  - apply take_chars_all.
Qed.

(** X16: with a connection, [send_action] hands the connection exactly
    the envelope [make_action] builds, which the validator accepts, and
    returns [True] if and only if the send went through; when it did
    not, nothing was handed over. *)
Theorem send_action_wire (srv : WSServer) (c : Connection) (action : string)
    (params : option dict) (o : SendOutcome) :
  _connection srv = Some c →
  validate_message (make_action action params) = Ok true
  ∧ match o with
    | Sent => send_action srv action params o
              = (true, srv, [(c, make_action action params)])
    | ConnectionClosed => send_action srv action params o
                          = (false, cleaned_up srv, [])
    | SendFailed => send_action srv action params o = (false, srv, [])
    end.
Proof.
  intros Hc. split; [reflexivity|].
  unfold send_action, _send. rewrite Hc. now destruct o.
Qed.

(** X17: a send that finds the connection closed clears the slot, so
    that every later send returns [False] without trying; any other
    failure keeps the slot and the next send is tried. *)
Theorem closed_connection_fails_fast (srv : WSServer) (c : Connection)
    (action : string) (params : option dict) :
  _connection srv = Some c →
  (∀ action' params' o',
     send_action (send_action srv action params ConnectionClosed).1.2
       action' params' o'
     = (false, (send_action srv action params ConnectionClosed).1.2, []))
  ∧ (∀ action' params',
       send_action (send_action srv action params SendFailed).1.2
         action' params' Sent
       = (true, srv, [(c, make_action action' params')])).
Proof.
  intros Hc. unfold send_action, _send. rewrite Hc. simpl. split.
  - reflexivity.
  - intros action' params'. now rewrite Hc.
Qed.

Section ReceiveProperties.
Context {json : PyJson}.

(** X18: a ping is answered with one pong that carries the timestamp of
  the ping as it came, whatever its type, or the time of the call
  when the ping has none; nothing else is done.  If the connection is
  found closed the slot is cleared. *)
Theorem dispatch_answers_ping (srv : WSServer) (c : Connection) (f : Frame)
  (d : dict) :
json_loads (raw f) = Some (VDict d) →
dict_get "type" d = Some (VStr "ping") →
_connection srv = Some c →
let ts := default (stamp (clock1 f)) (dict_get "timestamp" d) in
_dispatch srv f
= match send_outcome f with
  | Sent => {| outcome := Ok tt; server := srv;
               sent := [(c, make_pong ts (clock2 f))]; tasks := [] |}
  | ConnectionClosed => nothing_done (cleaned_up srv)
  | SendFailed => nothing_done srv
  end.
Proof.
intros Hraw Hty Hc ts. unfold _dispatch. rewrite Hraw. simpl.
rewrite Hty. simpl. unfold _send. rewrite Hc.
now destruct (send_outcome f).
Qed.







End ReceiveProperties.

(** ** Words *)

(** A word: a run of characters, not empty, none of them white space. *)
Lemma split_ws_words (s : string) :
  Forall (λ w, w ≠ "" ∧ all_chars (λ c, negb (is_space c)) w = true)
    (split_ws s).
Proof.
  induction s as [|c s IH]; [constructor|].
  cbn [split_ws]. destruct (is_space c) eqn:Hc; [exact IH|].
  assert (Hone : Forall (λ w, w ≠ "" ∧ all_chars (λ c, negb (is_space c)) w
                              = true) [String c ""]).
  { repeat constructor; [discriminate|]. simpl. now rewrite Hc. }
  destruct s as [|c' s']; [exact Hone|].
  destruct (is_space c') eqn:Hc'.
  - constructor; [|exact IH]. split; [discriminate|]. simpl. now rewrite Hc.
  - destruct (split_ws (String c' s')) as [|w ws]; [exact Hone|].
    apply Forall_cons in IH as [[_ Hw] Hws]. constructor; [|exact Hws].
    split; [discriminate|]. simpl. now rewrite Hc, Hw.
Qed.

Lemma split_ws_all_space (s : string) :
  all_chars is_space s = true → split_ws s = [].
Proof.
  induction s as [|c s IH]; [reflexivity|]. simpl.
  intros [Hc Hs]%andb_prop. rewrite Hc. auto.
Qed.

Lemma split_ws_head (c : ascii) (s : string) :
  is_space c = false → ∃ w ws, split_ws (String c s) = w :: ws.
Proof.
  intros Hc. cbn [split_ws]. rewrite Hc.
  destruct s as [|c' s']; [eauto|].
  destruct (is_space c'); [eauto|].
  destruct (split_ws (String c' s')); eauto.
Qed.

(** A word in front of the end of the text or of a white space. *)
Lemma split_ws_word_app (w rest : string) :
  w ≠ "" → all_chars (λ c, negb (is_space c)) w = true →
  stops (λ c, negb (is_space c)) rest →
  split_ws (w +:+ rest) = w :: split_ws rest.
Proof.
  induction w as [|c w IH]; [congruence|]. intros _ Hw Hrest.
  simpl in Hw. apply andb_prop in Hw as [Hc Hw].
  apply negb_true_iff in Hc. sapp. cbn [split_ws]. rewrite Hc.
  destruct w as [|c2 w].
  - sapp. destruct rest as [|c' rest]; [reflexivity|].
    simpl in Hrest. apply negb_false_iff in Hrest. now rewrite Hrest.
  - sapp. pose proof Hw as Hw'. simpl in Hw'.
    apply andb_prop in Hw' as [Hc2 _]. apply negb_true_iff in Hc2.
    rewrite Hc2. rewrite <- append_cons.
    rewrite IH by (try discriminate; assumption). reflexivity.
Qed.

Lemma split_ws_join (ws : list string) :
  Forall (λ w, w ≠ "" ∧ all_chars (λ c, negb (is_space c)) w = true) ws →
  split_ws (join " " ws) = ws.
Proof.
  induction 1 as [|w ws [Hne Hw] Hws IH]; [reflexivity|].
  destruct ws as [|w' ws].
  - cbn [join]. transitivity (split_ws (w +:+ "")).
    + now rewrite append_empty_r.
    + now rewrite split_ws_word_app.
  - change (join " " (w :: w' :: ws))
      with (w +:+ String " " (join " " (w' :: ws))).
    rewrite split_ws_word_app; try assumption.
    + f_equal. exact IH.
    + reflexivity.
Qed.

(** A white space between two texts separates their words. *)
Lemma split_ws_app (a b : string) (c : ascii) :
  is_space c = true →
  split_ws (a +:+ String c b) = split_ws a ++ split_ws b.
Proof.
  intros Hc. induction a as [|x a IH].
  - sapp. cbn [split_ws]. now rewrite Hc.
  - sapp. cbn [split_ws]. destruct (is_space x) eqn:Hx; [exact IH|].
    destruct a as [|y a].
    + sapp. rewrite Hc. cbn [split_ws]. now rewrite Hc.
    + sapp. destruct (is_space y) eqn:Hy.
      * rewrite <- append_cons, IH. reflexivity.
      * rewrite <- append_cons, IH.
        destruct (split_ws_head y a Hy) as (w & ws & ->). reflexivity.
Qed.

Lemma split_ws_lstrip (s : string) :
  split_ws (lstrip is_space s) = split_ws s.
Proof.
  induction s as [|c s IH]; [reflexivity|].
  cbn [lstrip]. destruct (is_space c) eqn:Hc; [|reflexivity].
  cbn [split_ws]. now rewrite Hc.
Qed.

Lemma split_ws_rstrip (s : string) :
  split_ws (rstrip is_space s) = split_ws s.
Proof.
  induction s as [|c s IH]; [reflexivity|].
  cbn [rstrip]. destruct (all_chars is_space (String c s)) eqn:Hall.
  { symmetry. now apply split_ws_all_space. }
  cbn [split_ws]. destruct (is_space c) eqn:Hc; [exact IH|].
  destruct s as [|c' s']; [reflexivity|].
  cbn [rstrip] in *.
  destruct (all_chars is_space (String c' s')) eqn:Hall'.
  - pose proof Hall' as Hall''. simpl in Hall''.
    apply andb_prop in Hall'' as [-> _].
    now rewrite (split_ws_all_space _ Hall').
  - destruct (is_space c'); now rewrite IH.
Qed.

Lemma split_ws_strip (s : string) : split_ws (strip s) = split_ws s.
Proof. unfold strip. now rewrite split_ws_rstrip, split_ws_lstrip. Qed.

Lemma split_ws_join_texts (texts : list string) :
  split_ws (join " " texts) = flat_map split_ws texts.
Proof.
  induction texts as [|t texts IH]; [reflexivity|].
  destruct texts as [|t' texts].
  - simpl. now rewrite app_nil_r.
  - change (join " " (t :: t' :: texts))
      with (t +:+ String " " (join " " (t' :: texts))).
    rewrite split_ws_app by reflexivity. now rewrite IH.
Qed.

Lemma join_blank_chars (ws : list string) :
  Forall (λ w, w ≠ "" ∧ all_chars (λ c, negb (is_space c)) w = true) ws →
  all_chars (λ c, negb (is_space c) || Ascii.eqb c " ") (join " " ws) = true.
Proof.
  assert (Happ : ∀ p a b, all_chars p (a +:+ b)
                          = all_chars p a && all_chars p b).
  { intros p a b. induction a as [|x a IHa]; sapp; [reflexivity|].
    simpl. now rewrite IHa, andb_assoc. }
  assert (Hword : ∀ w, all_chars (λ c, negb (is_space c)) w = true →
                       all_chars (λ c, negb (is_space c) || Ascii.eqb c " ") w
                       = true).
  { induction w as [|x w IHw]; [reflexivity|]. simpl.
    intros [-> Hw]%andb_prop. now rewrite IHw. }
  induction 1 as [|w ws [_ Hw] _ IH]; [reflexivity|].
  destruct ws as [|w' ws]; [now apply Hword|].
  change (join " " (w :: w' :: ws))
    with (w +:+ String " " (join " " (w' :: ws))).
  rewrite Happ. cbn [all_chars]. rewrite IH, (Hword _ Hw). reflexivity.
Qed.

(** ** The orchestrator *)

Lemma forward_actions_spec (actions : list Action) :
  forward_actions actions
  = (λ a, (action a, params a))
      <$> List.filter (λ a, negb (String.eqb (action a) "send_chat")) actions.
Proof.
  induction actions as [|a actions IH]; [reflexivity|]. simpl.
  destruct (String.eqb (action a) "send_chat"); simpl; now rewrite IH.
Qed.

Lemma forward_actions_filter (actions : list Action) :
  forward_actions
    (List.filter (λ a, negb (String.eqb (action a) "send_chat")) actions)
  = forward_actions actions.
Proof.
  induction actions as [|a actions IH]; [reflexivity|]. simpl.
  destruct (String.eqb (action a) "send_chat") eqn:E; simpl; [exact IH|].
  now rewrite E, IH.
Qed.

(** X22: what [handle_response] says and writes to the chat is the
    text on a single line: its words, each as it was, with one blank
    between two of them and nothing around; every white space left is
    a blank, and collapsing it again changes nothing. *)
Theorem handle_response_collapses (text : string) (actions : list Action) :
  text ≠ "" →
  let clean := join " " (split_ws text) in
  spoken (handle_response text actions) = [clean]
  ∧ chatted (handle_response text actions) = [clean]
  ∧ split_ws clean = split_ws text
  ∧ all_chars (λ c, negb (is_space c) || Ascii.eqb c " ") clean = true
  ∧ join " " (split_ws clean) = clean.
Proof.
  intros Hne clean. unfold handle_response.
  apply String.eqb_neq in Hne as ->. cbn [spoken chatted].
  assert (Hsplit : split_ws clean = split_ws text)
    by apply split_ws_join, split_ws_words.
  repeat split.
  - exact Hsplit.
  - apply join_blank_chars, split_ws_words.
  - now rewrite Hsplit.
Qed.

(** X23: [handle_response] forwards the actions to the bridge in their
    order, all but the [send_chat] ones, which it skips: the message of
    a [send_chat] tag reaches neither the chat nor the bridge. *)
Theorem handle_response_skips_send_chat (text : string)
    (actions : list Action) :
  forwarded (handle_response text actions)
  = (if String.eqb text "" then []
     else (λ a, (action a, params a))
            <$> List.filter (λ a, negb (String.eqb (action a) "send_chat"))
                  actions)
  ∧ Forall (λ f, f.1 ≠ "send_chat") (forwarded (handle_response text actions))
  ∧ handle_response text actions
    = handle_response text
        (List.filter (λ a, negb (String.eqb (action a) "send_chat")) actions).
Proof.
  unfold handle_response. destruct (String.eqb text ""); cbn [forwarded].
  { repeat split. constructor. }
  rewrite forward_actions_filter, forward_actions_spec. repeat split.
  apply Forall_fmap, Forall_forall. intros a Ha%list_elem_of_In.
  apply filter_In in Ha as [_ Ha]. simpl.
  now apply negb_true_iff, String.eqb_neq in Ha.
Qed.

Section OrchestratorProperties.
Context {builtins : PyBuiltins} {settings : Settings}.

Lemma strip_all_space (s : string) :
all_chars is_space s = true → strip s = "".
Proof.
intros Hs. unfold strip.
assert (E : lstrip is_space s = "").
{ induction s as [|c s IH]; [reflexivity|]. simpl in *.
  apply andb_prop in Hs as [-> Hs]. auto. }
now rewrite E.
Qed.

(** X24: an answer of the model that is nothing but tags and white
  space has no effect at all: nothing is said, nothing is written to
  the chat, and the actions of its tags are not forwarded. *)
Theorem tag_only_reply_has_no_effect (client : Client) (b b1 : Brain)
  (transcript response : string) (messages : list Turn) :
think_enter b transcript = (Ok messages, b1) →
client messages = Some response →
forallb numeric_fields (finditer response) = true →
all_chars is_space (sub_empty response) = true →
(on_transcript client b transcript).1 = Ok no_effects.
Proof.
intros Henter Hclient Hnum Hspace.
unfold on_transcript, think. rewrite Henter.
unfold _call_claude. rewrite Hclient. unfold think_resume.
destruct (_extract_actions response) as [[text actions]|e] eqn:Hex.
- unfold _extract_actions in Hex.
  destruct (extract_loop (finditer response) []) as [acts|e];
    [|discriminate]. simpl in Hex. injection Hex as <- <-.
  rewrite (strip_all_space _ Hspace).
  apply think_enter_ok in Henter as (Hmax & _ & _).
  now rewrite add_assistant_spec.
- exfalso. assert (Hr : ∃ e, _extract_actions response = Raise e) by eauto.
  apply extract_actions_raises_iff in Hr. congruence.
Qed.

(** X25: a [game_state] event only merges the snapshot: the two
  updates of the shared dict amount to one, no request is made,
  nothing is said or sent, and the rest of the brain is as before. *)
Theorem game_state_event_only_updates (client : Client) (b : Brain)
  (data : dict) (now : Q) :
dict_wf data →
on_game_event client b "game_state" data now
= (Ok no_effects, update_game_state b data).
Proof.
intros Hwf. unfold on_game_event. simpl.
now rewrite update_game_state_twice.
Qed.

Lemma think_depends (client : Client) (b1 b2 : Brain) (user_input : string) :
_history b1 = _history b2 → _game_state b1 = _game_state b2 →
(think client b1 user_input).1 = (think client b2 user_input).1
∧ _history (think client b1 user_input).2
  = _history (think client b2 user_input).2.
Proof.
intros Hh Hg. unfold think, think_enter. rewrite Hh, Hg.
destruct (add_user _ _ _) as [[[]|e] h]; [|now split].
unfold think_resume. cbn [_history with_history].
destruct (_extract_actions _) as [[text actions]|e]; [|now split].
now destruct (add_assistant _ _) as [[[]|e] h'].
Qed.

(** X26: the answer to a chat message of a player depends on the
  window and on the snapshot only: the voice flag, the cooldown
  stamps, the lock, the queue and the time of the event have no
  part in it. *)
Theorem player_message_is_never_suppressed (client : Client) (b1 b2 : Brain)
  (data : dict) (now1 now2 : Q) :
_history b1 = _history b2 → _game_state b1 = _game_state b2 →
(on_game_event client b1 "player_message" data now1).1
= (on_game_event client b2 "player_message" data now2).1.
Proof.
intros Hh Hg. unfold on_game_event. simpl.
destruct (truthy _); [|reflexivity].
pose proof (think_depends client b1 b2
              (py_str (default (VStr "") (dict_get "username" data))
               +:+ " says in chat: "
               +:+ py_str (default (VStr "") (dict_get "message" data)))
              Hh Hg) as [H _].
destruct (think client b1 _) as [[[t1 a1]|e1] b1'],
         (think client b2 _) as [[[t2 a2]|e2] b2']; simpl in H |- *;
  congruence.
Qed.

(** X27: while the voice flag is up, an event that is neither a
  snapshot, a connection event of the bot nor a chat message does
  nothing: no effect, and the brain as before. *)
Theorem proactive_event_under_voice (client : Client) (b : Brain)
  (event_type : string) (data : dict) (now : Q) :
_voice_active b = true →
event_type ∉ ["game_state"; "bot_joined"; "bot_disconnected";
              "player_message"] →
_run_game_event client b event_type data now = (no_effects, b).
Proof.
intros Hvoice Hty. unfold _run_game_event, on_game_event.
repeat match goal with
       | |- context [String.eqb event_type ?lit] =>
           destruct (String.eqb_spec event_type lit) as [->|?];
           [exfalso; apply Hty; set_solver|]
       end.
simpl. unfold handle_game_event, handle_game_event_enter.
now rewrite Hvoice.
Qed.

End OrchestratorProperties.

(** ** Push to talk *)

Lemma key_event_held_active (vp : VoicePipeline) (b : Brain) (ev : KeyEvent) :
  (_ptt_held vp = true → _voice_active b = true) →
  _ptt_held (key_event vp b ev).1.1.2 = true →
  _voice_active (key_event vp b ev).1.2 = true.
Proof.
  intros Hinv. destruct ev as [started|stopped]; simpl.
  - destruct (_ptt_held vp) eqn:Hheld; simpl; [now rewrite Hheld|reflexivity].
  - destruct (_ptt_held vp) eqn:Hheld; simpl.
    + destruct stopped as [[w|]|e]; simpl; try discriminate.
      destruct (negb (String.eqb w "") && _loop vp); simpl; discriminate.
    + now rewrite Hheld.
Qed.

Lemma key_event_in_step (vp : VoicePipeline) (b : Brain) (ev : KeyEvent) :
  stop_raises ev = false →
  _voice_active b = _ptt_held vp →
  _voice_active (key_event vp b ev).1.2
  = _ptt_held (key_event vp b ev).1.1.2.
Proof.
  intros Hev Heq. destruct ev as [started|stopped]; simpl.
  - destruct (_ptt_held vp) eqn:Hheld; simpl;
      [now rewrite Hheld|reflexivity].
  - destruct (_ptt_held vp) eqn:Hheld; simpl; [|now rewrite Hheld].
    destruct stopped as [[w|]|e]; simpl; try reflexivity; try discriminate.
    destruct (negb (String.eqb w "") && _loop vp); reflexivity.
Qed.

Lemma key_events_cons (vp : VoicePipeline) (b : Brain) (ev : KeyEvent)
    (evs : list KeyEvent) :
  key_events vp b (ev :: evs)
  = key_events (key_event vp b ev).1.1.2 (key_event vp b ev).1.2 evs.
Proof. simpl. now destruct (key_event vp b ev) as [[[r vp'] b'] ws]. Qed.

(** X28: over every sequence of presses and releases of the key,
    repeats and failures of the capture included, the brain has been
    told that the voice is active whenever the key is held. *)
Theorem held_key_keeps_voice_active (evs : list KeyEvent)
    (vp : VoicePipeline) (b : Brain) :
  (_ptt_held vp = true → _voice_active b = true) →
  _ptt_held (key_events vp b evs).1 = true →
  _voice_active (key_events vp b evs).2 = true.
Proof.
  revert vp b. induction evs as [|ev evs IH]; intros vp b Hinv.
  - exact Hinv.
  - rewrite key_events_cons. apply IH. now apply key_event_held_active.
Qed.

(** X29: as long as the capture does not raise when it is stopped, the
    voice flag is up exactly while the key is held, over every sequence
    of presses and releases: events are taken up again after each
    release. *)
Theorem voice_flag_follows_key (evs : list KeyEvent) (vp : VoicePipeline)
    (b : Brain) :
  Forall (λ ev, stop_raises ev = false) evs →
  _voice_active b = _ptt_held vp →
  _voice_active (key_events vp b evs).2 = _ptt_held (key_events vp b evs).1.
Proof.
  intros Hall. revert vp b.
  induction Hall as [|ev evs Hev _ IH]; intros vp b Heq.
  - exact Heq.
  - rewrite key_events_cons. apply IH. now apply key_event_in_step.
Qed.

(** ** Transcripts *)

Section TranscribeProperties.
Context {voice : VoiceSettings}.

Lemma accepted_texts_words (segments : list Segment) :
flat_map split_ws (accepted_texts segments)
= flat_map (λ seg, split_ws (seg_text seg))
    (List.filter (λ seg, negb (Qltb (avg_logprob seg) STT_LOGPROB_THRESHOLD))
       segments).
Proof.
induction segments as [|seg segments IH]; [reflexivity|]. simpl.
destruct (Qltb _ _); simpl; [exact IH|].
now rewrite split_ws_strip, IH.
Qed.

(** X30: the words of a transcript are the words of the segments whose
  confidence is not below the threshold, in their order; the
  transcript is returned, without white space at its ends, when
  these are at least [MIN_TRANSCRIPT_WORDS], and [None] is returned
  when they are fewer. *)
Theorem transcribe_spec (segments : list Segment) :
let words :=
  flat_map (λ seg, split_ws (seg_text seg))
    (List.filter (λ seg, negb (Qltb (avg_logprob seg) STT_LOGPROB_THRESHOLD))
       segments) in
match transcribe segments with
| None => (Z.of_nat (length words) < MIN_TRANSCRIPT_WORDS)%Z
| Some transcript =>
    (MIN_TRANSCRIPT_WORDS ≤ Z.of_nat (length words))%Z
    ∧ split_ws transcript = words
    ∧ strip transcript = transcript
end.
Proof.
intros words. unfold transcribe.
assert (Hwords : split_ws (strip (join " " (accepted_texts segments)))
                 = words).
{ rewrite split_ws_strip, split_ws_join_texts. apply accepted_texts_words. }
rewrite Hwords. destruct (_ <? _)%Z eqn:Hlt.
- now apply Z.ltb_lt in Hlt.
- apply Z.ltb_ge in Hlt. repeat split; [exact Hlt|exact Hwords|].
  apply strip_idempotent.
Qed.

End TranscribeProperties.

(** ** The properties at concrete inputs *)

Section MoreWitnesses.
#[local] Existing Instance demo_builtins.
#[local] Existing Instance demo_settings.
#[local] Existing Instance demo_json.
#[local] Existing Instance demo_voice.


Lemma update_game_state_merges_witness :
dict_get "biome"
  (_game_state (update_game_state demo_brain [("biome", VStr "plains")]))
= Some (VStr "plains").
Proof.
destruct (update_game_state_merges demo_brain [("biome", VStr "plains")])
  as [H _].
- apply NoDup_singleton.
- exact (H "biome").
Defined.

Lemma queue_stays_bounded_witness :
(Z.of_nat
   (length (_proactive_queue
              (run_steps [EventEnter "dawn" [] 100; EventEnter "dawn" [] 200]
                 (with_lock demo_brain true))))
 ≤ 3)%Z.
Proof.
refine (queue_stays_bounded
          [EventEnter "dawn" [] 100; EventEnter "dawn" [] 200]
          (with_lock demo_brain true) _ _).
- reflexivity.
- vm_compute. discriminate.
Defined.


Lemma think_raise_keeps_user_turn_witness :
think demo_bad_client demo_brain "yo"
= (Raise ValueError, (think_enter demo_brain "yo").2).
Proof.
assert (E : think_enter demo_brain "yo"
            = (Ok [{| role := user; content := "yo" |}],
               (think_enter demo_brain "yo").2)).
{ vm_compute. reflexivity. }
assert (R : _extract_actions
              (_call_claude demo_bad_client
                 [{| role := user; content := "yo" |}])
            = Raise ValueError).
{ vm_compute. reflexivity. }
exact (proj1 (think_raise_keeps_user_turn demo_bad_client demo_brain _
                "yo" _ ValueError E R)).
Defined.

Lemma event_raise_consumes_cooldown_witness :
handle_game_event demo_bad_client demo_brain "mob_spawn" [] 100
= (Raise ValueError,
   with_lock (handle_game_event_enter demo_brain "mob_spawn" [] 100).2 false).
Proof.
assert (E : handle_game_event_enter demo_brain "mob_spawn" [] 100
            = (Ok (Some [{| role := user;
                            content := _build_event_prompt "mob_spawn" [] |}]),
               (handle_game_event_enter demo_brain "mob_spawn" [] 100).2)).
{ vm_compute. reflexivity. }
assert (R : _extract_actions
              (_call_claude demo_bad_client
                 [{| role := user;
                     content := _build_event_prompt "mob_spawn" [] |}])
            = Raise ValueError).
{ vm_compute. reflexivity. }
exact (proj1 (event_raise_consumes_cooldown demo_bad_client demo_brain _
                "mob_spawn" [] 100 _ ValueError E R)).
Defined.


Lemma other_event_types_keep_stamp_witness :
_last_event_time
  (run_steps [EventEnter "dawn" [] 100; ThinkEnter "yo"] demo_brain)
  !! "mob_spawn"
= _last_event_time demo_brain !! "mob_spawn".
Proof.
apply (other_event_types_keep_stamp
         [EventEnter "dawn" [] 100; ThinkEnter "yo"] demo_brain "mob_spawn").
repeat constructor; intros data now; discriminate.
Defined.

Lemma send_chat_truncates_witness :
send_chat (connected WSServer_init 7) "hi" Sent
= (true, connected WSServer_init 7,
   [(7, make_action "send_chat" (Some [("message", VStr "hi")]))]).
Proof.
exact (proj1 (send_chat_truncates (connected WSServer_init 7) 7 "hi"
                eq_refl)).
Defined.

Lemma send_action_wire_witness :
send_action (connected WSServer_init 7) "eat" None Sent
= (true, connected WSServer_init 7, [(7, make_action "eat" None)]).
Proof.
exact (proj2 (send_action_wire (connected WSServer_init 7) 7 "eat" None
                Sent eq_refl)).
Defined.

Lemma closed_connection_fails_fast_witness :
send_action
  (send_action (connected WSServer_init 7) "eat" None ConnectionClosed).1.2
  "flee" None Sent
= (false,
   (send_action (connected WSServer_init 7) "eat" None ConnectionClosed).1.2,
   []).
Proof.
exact (proj1 (closed_connection_fails_fast (connected WSServer_init 7) 7
                "eat" None eq_refl) "flee" None Sent).
Defined.

Lemma dispatch_answers_ping_witness :
_dispatch (connected WSServer_init 7) (demo_frame "ping")
= {| outcome := Ok tt; server := connected WSServer_init 7;
     sent := [(7, make_pong (VInt 7) 2)]; tasks := [] |}.
Proof.
exact (dispatch_answers_ping (connected WSServer_init 7) 7
         (demo_frame "ping")
         [("type", VStr "ping"); ("timestamp", VInt 7)]
         eq_refl eq_refl eq_refl).
Defined.




Lemma handle_response_collapses_witness :
spoken (handle_response (String "a" (NL +:+ " b")) []) = ["a b"].
Proof.
destruct (handle_response_collapses (String "a" (NL +:+ " b")) [])
  as [H _].
- discriminate.
- exact H.
Defined.

Lemma tag_only_reply_has_no_effect_witness :
(on_transcript demo_tag_client demo_brain "run").1 = Ok no_effects.
Proof.
assert (E : think_enter demo_brain "run"
            = (Ok [{| role := user; content := "run" |}],
               (think_enter demo_brain "run").2)).
{ vm_compute. reflexivity. }
apply (tag_only_reply_has_no_effect demo_tag_client demo_brain _ "run"
         "[ACTION:flee]" _ E).
- reflexivity.
- vm_compute. reflexivity.
- vm_compute. reflexivity.
Defined.

Lemma game_state_event_only_updates_witness :
on_game_event demo_client demo_brain "game_state"
  [("biome", VStr "plains")] 100
= (Ok no_effects, update_game_state demo_brain [("biome", VStr "plains")]).
Proof.
apply (game_state_event_only_updates demo_client demo_brain
         [("biome", VStr "plains")] 100).
apply NoDup_singleton.
Defined.

Lemma player_message_is_never_suppressed_witness :
(on_game_event demo_client (set_voice_active demo_brain true)
   "player_message" [("username", VStr "Al"); ("message", VStr "hi")] 1).1
= (on_game_event demo_client demo_brain
     "player_message" [("username", VStr "Al"); ("message", VStr "hi")] 2).1.
Proof.
apply (player_message_is_never_suppressed demo_client
         (set_voice_active demo_brain true) demo_brain
         [("username", VStr "Al"); ("message", VStr "hi")] 1 2);
  reflexivity.
Defined.

Lemma proactive_event_under_voice_witness :
_run_game_event demo_client (set_voice_active demo_brain true) "dawn" [] 100
= (no_effects, set_voice_active demo_brain true).
Proof.
apply (proactive_event_under_voice demo_client
         (set_voice_active demo_brain true) "dawn" [] 100).
- reflexivity.
- rewrite !elem_of_cons, elem_of_nil.
  intros [H|[H|[H|[H|H]]]]; try discriminate H. exact H.
Defined.

Lemma held_key_keeps_voice_active_witness :
_voice_active
  (key_events demo_pipeline demo_brain
     [KeyDown (Ok tt); KeyUp (Raise ValueError); KeyDown (Ok tt)]).2
= true.
Proof.
apply (held_key_keeps_voice_active
         [KeyDown (Ok tt); KeyUp (Raise ValueError); KeyDown (Ok tt)]
         demo_pipeline demo_brain).
- intros H. discriminate H.
- reflexivity.
Defined.

Lemma voice_flag_follows_key_witness :
_voice_active
  (key_events demo_pipeline demo_brain
     [KeyDown (Ok tt); KeyUp (Ok (Some "wav"))]).2
= _ptt_held
    (key_events demo_pipeline demo_brain
       [KeyDown (Ok tt); KeyUp (Ok (Some "wav"))]).1.
Proof.
apply (voice_flag_follows_key [KeyDown (Ok tt); KeyUp (Ok (Some "wav"))]
         demo_pipeline demo_brain).
- repeat constructor.
- reflexivity.
Defined.

End MoreWitnesses.
